(** * SimCLR on CIFAR-10: a shallow embedding of [simclr.py]

    The development follows the source file top to bottom:
    the paired dataset ([CIFAR10Pair.__getitem__]), the contrastive loss
    ([nt_xent]), the cosine schedule ([get_lr]) and the control flow of
    the training entry point ([train]).

    Conventions.
    - Python [int]s are [Z]; sizes and positions inside tensors are [nat].
    - Python [float]s and tensor entries are idealised as real numbers
      ([R]): the algebraic shape of every expression is modelled; rounding,
      overflow to infinity, NaN and the [OverflowError] of an integer
      quotient beyond the range of a float are not. Where these matter the
      statements carry bounds on their inputs, or are inequalities with
      room for the rounding.
    - Exceptions are explicit: a computation that can raise returns a
      [result]. *)

From Stdlib Require Import String Ascii.
From Stdlib Require Import List ZArith Lia Bool Arith.
From Stdlib Require Import Reals Lra.
From Stdlib Require Import DecimalString DecimalZ.
Import ListNotations.

(** ** Exceptions *)

Inductive error : Type :=
| AssertionError
| ZeroDivisionError
| IndexError
| RuntimeError.

Inductive result (A : Type) : Type :=
| Ok (a : A)
| Err (e : error).

Arguments Ok {A} a.
Arguments Err {A} e.

Definition bind {A B : Type} (m : result A) (k : A -> result B) : result B :=
  match m with
  | Ok a => k a
  | Err e => Err e
  end.

Notation "x <- m ;; k" := (bind m (fun x => k))
  (at level 61, m at next level, right associativity).

(** ** The paired dataset and the flattening of a batch

    A view is one augmented image, a [(C, H, W)] block that none of the
    operations below looks into; a tensor of views is its leading sizes
    together with its blocks in row-major order. The augmentation
    pipeline is a parameter: it draws from a generator state. *)

Section CIFAR10Pair.

Variables Image View RNG : Type.
Variable transform : Image -> RNG -> View * RNG.

Record dataset : Type := {
  data : list Image;
  targets : list Z
}.

Record tensor : Type := {
  sizes : list nat;
  storage : list View
}.

(** [torch.stack(imgs)] on a list of views. *)
Definition stack (imgs : list View) : tensor :=
  {| sizes := [length imgs]; storage := imgs |}.

(** [CIFAR10Pair.__getitem__]: two draws of the pipeline on one image. *)
Definition getitem (self : dataset) (idx : nat) (g : RNG)
  : result (tensor * Z * RNG) :=
  match nth_error (data self) idx, nth_error (targets self) idx with
  | Some img, Some target =>
      let (v0, g0) := transform img g in
      let (v1, g1) := transform img g0 in
      let imgs := [v0; v1] in
      Ok (stack imgs, target, g1)
  | _, _ => Err IndexError
  end.

(** The items of one batch, fetched in the order of the sampled indices. *)
Fixpoint fetch (self : dataset) (idxs : list nat) (g : RNG)
  : result (list (tensor * Z) * RNG) :=
  match idxs with
  | [] => Ok ([], g)
  | idx :: rest =>
      item <- getitem self idx g ;;
      let '(x, y, g1) := item in
      more <- fetch self rest g1 ;;
      let '(items, g2) := more in
      Ok ((x, y) :: items, g2)
  end.

(** The loader's collation: the stacked pairs are stacked once more, which
    puts the batch size in front of the sizes of one item. *)
Definition collate (items : list (tensor * Z)) : tensor * list Z :=
  ({| sizes := length items ::
               match items with
               | [] => []
               | (x, _) :: _ => sizes x
               end;
      storage := concat (map (fun it => storage (fst it)) items) |},
   map snd items).

Definition load_batch (self : dataset) (idxs : list nat) (g : RNG)
  : result (tensor * list Z * RNG) :=
  fetched <- fetch self idxs g ;;
  let '(items, g1) := fetched in
  Ok (collate items, g1).

Definition numel (shape : list nat) : nat := fold_right Nat.mul 1%nat shape.

(** [x.view(shape)]: the same storage under other sizes; the sizes must
    account for every block. *)
Definition view (x : tensor) (shape : list nat) : result tensor :=
  if (numel shape =? length (storage x))%nat
  then Ok {| sizes := shape; storage := storage x |}
  else Err RuntimeError.

(** Line 103-104 of [train]: [x.view(sizes[0] * 2, ...)]; the trailing
    sizes are those of a view and stay as they are. *)
Definition flatten (x : tensor) : result tensor :=
  let sizes := sizes x in
  view x [(nth 0 sizes 0 * 2)%nat].

(** [x[i]] for a tensor with one leading size. *)
Definition index1 (x : tensor) (i : nat) : option View :=
  match sizes x with
  | [n] => if (i <? n)%nat then nth_error (storage x) i else None
  | _ => None
  end.

(** [x[i, j]] for a tensor with two leading sizes. *)
Definition index2 (x : tensor) (i j : nat) : option View :=
  match sizes x with
  | [n; m] =>
      if ((i <? n) && (j <? m))%nat
      then nth_error (storage x) (i * m + j)
      else None
  | _ => None
  end.

(** The view [v] is a draw of the pipeline on the image [img]. *)
Definition view_of (img : Image) (v : View) : Prop :=
  exists g : RNG, v = fst (transform img g).

(** An item is the stacked pair of two draws on the image [img]. *)
Definition pair_of (img : Image) (it : tensor * Z) : Prop :=
  exists v0 v1 : View,
    fst it = {| sizes := [2%nat]; storage := [v0; v1] |} /\
    view_of img v0 /\ view_of img v1.

End CIFAR10Pair.

Arguments data {Image} d.
Arguments targets {Image} d.
Arguments sizes {View} t.
Arguments storage {View} t.
Arguments stack {View} imgs.
Arguments getitem {Image View RNG} transform self idx g.
Arguments fetch {Image View RNG} transform self idxs g.
Arguments collate {View} items.
Arguments load_batch {Image View RNG} transform self idxs g.
Arguments view {View} x shape.
Arguments flatten {View} x.
Arguments index1 {View} x i.
Arguments index2 {View} x i j.
Arguments view_of {Image View RNG} transform img v.
Arguments pair_of {Image View RNG} transform img it.

(** ** The contrastive loss, [nt_xent]

    A matrix is the list of its rows. The library calls are modelled by
    what they compute: [F.normalize(x, dim=1)] divides each row by
    [max(norm, eps)] with [eps = 1e-12], [clamp(min=m)] is the maximum
    with [m], and [F.cross_entropy] is the mean over the rows of the
    negated logarithm of the softmax probability of the target class. *)

Module Loss.

Local Open Scope R_scope.

Definition matrix : Type := list (list R).

Definition sum (l : list R) : R := fold_right Rplus 0 l.

Definition map2 {A B C : Type} (f : A -> B -> C) (a : list A) (b : list B)
  : list C :=
  map (fun p => f (fst p) (snd p)) (combine a b).

Definition dot (u v : list R) : R := sum (map2 Rmult u v).

Definition norm (u : list R) : R := sqrt (dot u u).

Definition eps : R := 1e-12.

Definition normalize_row (u : list R) : list R :=
  let denom := Rmax (norm u) eps in
  map (fun a => a / denom) u.

(** [F.normalize(x, dim=1)] *)
Definition normalize (x : matrix) : matrix := map normalize_row x.

(** [a @ b.t()]: entry [(i, j)] is the inner product of row [i] of [a]
    and row [j] of [b]. *)
Definition matmul_t (a b : matrix) : matrix :=
  map (fun r => map (fun c => dot r c) b) a.

(** [m.clamp(min=lo)] *)
Definition clamp (lo : R) (m : matrix) : matrix :=
  map (map (fun v => Rmax v lo)) m.

(** [m / t] *)
Definition div_scalar (m : matrix) (t : R) : matrix :=
  map (map (fun v => v / t)) m.

(** [m * c] *)
Definition mul_scalar (m : matrix) (c : R) : matrix :=
  map (map (fun v => v * c)) m.

(** [a - b], entry by entry *)
Definition sub (a b : matrix) : matrix := map2 (map2 Rminus) a b.

(** [torch.eye(n)] *)
Definition eye (n : nat) : matrix :=
  map (fun i => map (fun j => if (i =? j)%nat then 1 else 0) (seq 0 n))
      (seq 0 n).

(** Entry [(i, j)] of a matrix, when there is one. *)
Definition entry (m : matrix) (i j : nat) : option R :=
  match nth_error m i with
  | Some r => nth_error r j
  | None => None
  end.

(** Line 36-37: the clamped similarity scores. *)
Definition x_scores (x : matrix) : matrix :=
  let x := normalize x in
  clamp 1e-7 (matmul_t x x).

(** Line 38: the scores over the temperature. *)
Definition x_scale (x : matrix) (t : R) : matrix :=
  div_scalar (x_scores x) t.

(** Line 42: the scaled scores with the diagonal pushed down. *)
Definition x_scale_masked (x : matrix) (t : R) : matrix :=
  let x_scale := x_scale x t in
  sub x_scale (mul_scalar (eye (length x_scale)) 1e5).

Definition arange (n : nat) : list Z := map Z.of_nat (seq 0 n).

(** Position [i] belongs to the slice [start::step]. *)
Definition in_slice (start step i : nat) : bool :=
  (start <=? i)%nat && ((i - start) mod step =? 0)%nat.

(** [l[start::step] += d], the elements of [l] being numbered from [i]. *)
Fixpoint slice_add_from (i start step : nat) (d : Z) (l : list Z) : list Z :=
  match l with
  | [] => []
  | v :: r =>
      (if in_slice start step i then (v + d)%Z else v)
        :: slice_add_from (S i) start step d r
  end.

Definition slice_add (start step : nat) (d : Z) (l : list Z) : list Z :=
  slice_add_from 0 start step d l.

(** Lines 45-47, for a representation matrix of [n] rows. *)
Definition targets (n : nat) : list Z :=
  let targets := arange n in
  let targets := slice_add 0 2 1 targets in
  let targets := slice_add 1 2 (-1) targets in
  targets.

(** The softmax probabilities of one row of scores. *)
Definition softmax (row : list R) : list R :=
  let z := sum (map exp row) in
  map (fun v => exp v / z) row.

(** The loss of one row against its target class. *)
Definition nll (row : list R) (target : Z) : result R :=
  if ((0 <=? target) && (target <? Z.of_nat (length row)))%Z
  then match nth_error (softmax row) (Z.to_nat target) with
       | Some p => Ok (- ln p)
       | None => Err IndexError
       end
  else Err IndexError.

Fixpoint nll_rows (logits : matrix) (targets : list Z) : result (list R) :=
  match logits, targets with
  | row :: logits', target :: targets' =>
      l <- nll row target ;;
      ls <- nll_rows logits' targets' ;;
      Ok (l :: ls)
  | _, _ => Ok []
  end.

(** [F.cross_entropy(logits, targets)] with its default mean reduction. *)
Definition cross_entropy (logits : matrix) (targets : list Z) : result R :=
  ls <- nll_rows logits targets ;;
  Ok (sum ls / INR (length logits)).

(** A matrix of [n] rows of [n] entries each. *)
Definition square (n : nat) (m : matrix) : Prop :=
  length m = n /\ forall r, In r m -> length r = n.

Definition nt_xent (x : matrix) (t : R) : result R :=
  cross_entropy (x_scale_masked x t) (targets (length x)).

(** *** The scores as the specification words them

    Steps 1 to 3 of the loss, written with indices over a matrix of [D]
    columns and without the list operations above: each row is divided by
    its Euclidean norm (which the library floors at 1e-12), S is the
    matrix of the inner products of the normalised rows, S is clamped
    from below at 1e-7, and S' is S over the temperature. *)

(** [f k + f (k+1) + ... + f (k+n-1)] *)
Fixpoint spec_sum (f : nat -> R) (k n : nat) : R :=
  match n with
  | O => 0
  | S n' => f k + spec_sum f (S k) n'
  end.

(** Entry [(i, k)] of the representation matrix. *)
Definition spec_row (x : matrix) (i k : nat) : R := nth k (nth i x []) 0.

Definition spec_l2norm (x : matrix) (D i : nat) : R :=
  sqrt (spec_sum (fun k => spec_row x i k * spec_row x i k) 0 D).

Definition spec_normalized (x : matrix) (D i k : nat) : R :=
  spec_row x i k / Rmax (spec_l2norm x D i) 1e-12.

Definition spec_similarity (x : matrix) (D i j : nat) : R :=
  spec_sum (fun k => spec_normalized x D i k * spec_normalized x D j k) 0 D.

Definition spec_clamped (x : matrix) (D i j : nat) : R :=
  Rmax (spec_similarity x D i j) 1e-7.

Definition spec_scaled (x : matrix) (D : nat) (t : R) (i j : nat) : R :=
  spec_clamped x D i j / t.

End Loss.

(** ** The cosine schedule, [get_lr]

    [step] and [total_steps] are Python integers, so [step / total_steps]
    raises when [total_steps] is zero. *)

Definition get_lr (step total_steps : Z) (lr_max lr_min : R) : result R :=
  if (total_steps =? 0)%Z
  then Err ZeroDivisionError
  else Ok (lr_min + (lr_max - lr_min) * 0.5
                    * (1 + cos (IZR step / IZR total_steps * PI)))%R.

(** The formula of the schedule as the specification words it. *)
Definition spec_lr (step total_steps : Z) (lr_max lr_min : R) : R :=
  (lr_min + (lr_max - lr_min) * 0.5
            * (1 + cos (IZR step / IZR total_steps * PI)))%R.

(** ** The training entry point, [train]

    Only the control flow is modelled: which exceptions are raised, how
    many optimizer steps run, and which checkpoints are written. The
    network, the optimizer and the loader are collaborators; of the loader
    only [len(train_loader)] matters here. *)

Record Args : Type := {
  backbone : string;
  learning_rate : R;
  temperature : R;
  epochs : Z;
  log_interval : Z
}.

Record Env : Type := {
  cuda_is_available : bool;
  len_train_loader : nat
}.

(** What a run does that can be observed from outside. *)
Inductive event : Type :=
| OptimizerStep (epoch : Z)
| SaveCheckpoint (file : string).

Definition supported_backbones : list string :=
  ["resnet18"%string; "resnet34"%string].

(** [s in l] on a list of strings *)
Definition string_in (s : string) (l : list string) : bool :=
  existsb (String.eqb s) l.

(** [range(lo, hi)] *)
Definition range (lo hi : Z) : list Z :=
  map (fun i => (lo + Z.of_nat i)%Z) (seq 0 (Z.to_nat (hi - lo))).

(** ['{}'.format(n)] for an integer *)
Definition str (n : Z) : string := NilZero.string_of_int (Z.to_int n).

(** ['simclr_{}_epoch{}.pt'.format(backbone, epoch)] *)
Definition checkpoint_name (backbone : string) (epoch : Z) : string :=
  ("simclr_" ++ backbone ++ "_epoch" ++ str epoch ++ ".pt")%string.

(** [args.epochs * len(train_loader)] *)
Definition total_steps (args : Args) (env : Env) : Z :=
  (epochs args * Z.of_nat (len_train_loader env))%Z.

(** The [lr_lambda] handed to [LambdaLR]. *)
Definition lr_lambda (args : Args) (env : Env) (step : Z) : result R :=
  get_lr step (total_steps args env) (learning_rate args) 1e-3%R.

(** [LambdaLR]: the counter [last_epoch] and the factor last computed.
    The constructor already evaluates [lr_lambda] at step 0, and every
    [step()] advances the counter by one and evaluates it again. *)
Record scheduler : Type := {
  last_epoch : Z;
  factor : R
}.

Definition LambdaLR (lr_lambda : Z -> result R) : result scheduler :=
  f <- lr_lambda 0%Z ;;
  Ok {| last_epoch := 0; factor := f |}.

Definition scheduler_step (lr_lambda : Z -> result R) (s : scheduler)
  : result scheduler :=
  let n := (last_epoch s + 1)%Z in
  f <- lr_lambda n ;;
  Ok {| last_epoch := n; factor := f |}.

(** [epoch >= log_interval and epoch % log_interval == 0], with the
    short-circuit of [and] and the exception of [%]. *)
Definition should_save (epoch log_interval : Z) : result bool :=
  if (epoch >=? log_interval)%Z
  then if (log_interval =? 0)%Z
       then Err ZeroDivisionError
       else Ok (epoch mod log_interval =? 0)%Z
  else Ok false.

(** Lines 116-119: what happens after the batches of one epoch. *)
Definition end_of_epoch (args : Args) (epoch : Z) : list event * result unit :=
  match should_save epoch (log_interval args) with
  | Err e => ([], Err e)
  | Ok true => ([SaveCheckpoint (checkpoint_name (backbone args) epoch)], Ok tt)
  | Ok false => ([], Ok tt)
  end.

(** Lines 102-114: the remaining [n] batches of one epoch. *)
Fixpoint train_batches (lam : Z -> result R) (epoch : Z) (n : nat)
  (s : scheduler) : list event * result scheduler :=
  match n with
  | O => ([], Ok s)
  | S n' =>
      match scheduler_step lam s with
      | Err e => ([OptimizerStep epoch], Err e)
      | Ok s' =>
          let (tr, r) := train_batches lam epoch n' s' in
          (OptimizerStep epoch :: tr, r)
      end
  end.

(** Lines 99-119: the loop over the epochs. *)
Fixpoint train_epochs (args : Args) (env : Env) (todo : list Z)
  (s : scheduler) : list event * result unit :=
  match todo with
  | [] => ([], Ok tt)
  | epoch :: todo' =>
      match train_batches (lr_lambda args env) epoch (len_train_loader env) s
      with
      | (tr1, Err e) => (tr1, Err e)
      | (tr1, Ok s1) =>
          match end_of_epoch args epoch with
          | (tr2, Err e) => (tr1 ++ tr2, Err e)
          | (tr2, Ok _) =>
              let (tr3, r) := train_epochs args env todo' s1 in
              (tr1 ++ tr2 ++ tr3, r)
          end
      end
  end.

Definition train (args : Args) (env : Env) : list event * result unit :=
  if negb (cuda_is_available env) then ([], Err AssertionError)
  else if negb (string_in (backbone args) supported_backbones)
  then ([], Err AssertionError)
  else match LambdaLR (lr_lambda args env) with
       | Err e => ([], Err e)
       | Ok s => train_epochs args env (range 1 (epochs args + 1)) s
       end.

(** An optimizer step occurs in a trace. *)
Definition is_step (e : event) : bool :=
  match e with
  | OptimizerStep _ => true
  | SaveCheckpoint _ => false
  end.

Definition steps_run (tr : list event) : nat := length (filter is_step tr).

Definition saved_files (tr : list event) : list string :=
  flat_map (fun e => match e with
                     | SaveCheckpoint f => [f]
                     | OptimizerStep _ => []
                     end) tr.

(** The condition of line 117 when nothing raises. *)
Definition saves (L epoch : Z) : bool :=
  ((L <=? epoch) && (epoch mod L =? 0))%Z.

(** What one epoch leaves in the trace when nothing raises. *)
Definition epoch_trace (args : Args) (env : Env) (epoch : Z) : list event :=
  repeat (OptimizerStep epoch) (len_train_loader env)
  ++ fst (end_of_epoch args epoch).

(** The learning rate the optimizer uses: [LambdaLR] sets it to the initial
    rate of the optimizer, which [train] builds with [args.learning_rate],
    times the factor. *)
Definition current_lr (args : Args) (s : scheduler) : R :=
  (learning_rate args * factor s)%R.

(** A result that is a value or a division by zero. *)
Inductive only_zero_division {A : Type} : result A -> Prop :=
| ozd_ok (a : A) : only_zero_division (Ok a)
| ozd_err : only_zero_division (Err ZeroDivisionError).

(** * Properties *)

(** ** The target vector *)

Lemma slice_add_from_length i start step d l :
  length (Loss.slice_add_from i start step d l) = length l.
Proof.
  revert i; induction l as [|v r IH]; intros i; simpl; [reflexivity|].
  now rewrite IH.
Qed.

Lemma slice_add_from_nth i start step d l k :
  nth_error (Loss.slice_add_from i start step d l) k =
  option_map (fun v => if Loss.in_slice start step (i + k) then (v + d)%Z else v)
             (nth_error l k).
Proof.
  revert i k; induction l as [|v r IH]; intros i k.
  - destruct k; reflexivity.
  - destruct k as [|k]; simpl.
    + now rewrite Nat.add_0_r.
    + rewrite IH. now replace (S i + k)%nat with (i + S k)%nat by lia.
Qed.

Lemma arange_nth n k :
  (k < n)%nat -> nth_error (Loss.arange n) k = Some (Z.of_nat k).
Proof.
  intros Hk. unfold Loss.arange.
  rewrite nth_error_map, nth_error_seq.
  destruct (Nat.ltb_spec k n); [reflexivity | lia].
Qed.

Lemma targets_length n : length (Loss.targets n) = n.
Proof.
  unfold Loss.targets, Loss.slice_add, Loss.arange.
  now rewrite !slice_add_from_length, length_map, length_seq.
Qed.

Lemma mod2_even i : (i mod 2 =? 0)%nat = Nat.even i.
Proof.
  destruct (Nat.even i) eqn:E.
  - apply Nat.even_spec in E. destruct E as [m ->].
    rewrite Nat.mul_comm, Nat.Div0.mod_mul. reflexivity.
  - assert (O : Nat.odd i = true) by (rewrite <- Nat.negb_even, E; reflexivity).
    apply Nat.odd_spec in O. destruct O as [m ->].
    rewrite Nat.add_comm, (Nat.mul_comm 2 m), Nat.Div0.mod_add. reflexivity.
Qed.

Lemma in_slice_even i : Loss.in_slice 0 2 i = Nat.even i.
Proof.
  unfold Loss.in_slice. rewrite Nat.sub_0_r, mod2_even.
  reflexivity.
Qed.

Lemma in_slice_odd i : Loss.in_slice 1 2 i = Nat.odd i.
Proof.
  unfold Loss.in_slice. destruct i as [|i]; [reflexivity|].
  replace (S i - 1)%nat with i by lia.
  rewrite mod2_even, Nat.odd_succ. reflexivity.
Qed.

Lemma targets_nth n i :
  (i < n)%nat ->
  nth_error (Loss.targets n) i =
  Some (if Nat.even i then Z.of_nat i + 1 else Z.of_nat i - 1)%Z.
Proof.
  intros Hi. unfold Loss.targets, Loss.slice_add.
  rewrite !slice_add_from_nth, arange_nth by assumption.
  cbn [option_map Nat.add]. rewrite in_slice_even, in_slice_odd.
  rewrite <- Nat.negb_even.
  destruct (Nat.even i); cbn [negb]; f_equal; lia.
Qed.

(** C1: for 2N rows (N >= 1) and every k below N, row 2k is given the
    target 2k+1 and row 2k+1 the target 2k; for N = 2 the vector is
    [1,0,3,2] and for N = 3 it is [1,0,3,2,5,4]. *)
Theorem targets_pair_partner (N k : nat) :
  (1 <= N)%nat -> (k < N)%nat ->
  length (Loss.targets (2 * N)) = (2 * N)%nat /\
  nth_error (Loss.targets (2 * N)) (2 * k) = Some (2 * Z.of_nat k + 1)%Z /\
  nth_error (Loss.targets (2 * N)) (2 * k + 1) = Some (2 * Z.of_nat k)%Z /\
  Loss.targets 4 = [1; 0; 3; 2]%Z /\
  Loss.targets 6 = [1; 0; 3; 2; 5; 4]%Z.
Proof.
  intros _ Hk. split; [apply targets_length|].
  rewrite !targets_nth by lia.
  replace (Nat.even (2 * k)) with true
    by (symmetry; apply Nat.even_spec; now exists k).
  replace (Nat.even (2 * k + 1)) with false.
  - repeat split; f_equal; lia.
  - symmetry. rewrite <- Nat.negb_odd.
    replace (Nat.odd (2 * k + 1)) with true; [reflexivity|].
    symmetry; apply Nat.odd_spec; now exists k.
Qed.

Lemma targets_pair_partner_witness :
  nth_error (Loss.targets (2 * 5)) (2 * 3) = Some 7%Z /\
  nth_error (Loss.targets (2 * 5)) (2 * 3 + 1) = Some 6%Z.
Proof.
  destruct (targets_pair_partner 5 3) as (_ & H0 & H1 & _); [lia | lia |].
  split; [exact H0 | exact H1].
Defined.

(** ** Pairs stay adjacent under the flattening *)

Section PairFacts.

Context {Image View RNG : Type}.
Variable transform : Image -> RNG -> View * RNG.

Lemma getitem_in_range (self : dataset Image) idx g img target :
  nth_error (data self) idx = Some img ->
  nth_error (targets self) idx = Some target ->
  exists x g',
    getitem transform self idx g = Ok (x, target, g') /\
    pair_of transform img (x, target).
Proof.
  intros Hd Ht. unfold getitem. rewrite Hd, Ht.
  destruct (transform img g) as [v0 g0] eqn:E0.
  destruct (transform img g0) as [v1 g1] eqn:E1.
  eexists; eexists; split; [reflexivity|].
  exists v0, v1. split; [reflexivity|].
  split; [exists g; now rewrite E0 | exists g0; now rewrite E1].
Qed.

Lemma fetch_in_range (self : dataset Image) idxs :
  (forall idx, In idx idxs ->
     (idx < length (data self))%nat /\ (idx < length (targets self))%nat) ->
  forall g, exists items g',
    fetch transform self idxs g = Ok (items, g') /\
    length items = length idxs /\
    forall k idx, nth_error idxs k = Some idx ->
      exists img it,
        nth_error (data self) idx = Some img /\
        nth_error items k = Some it /\
        pair_of transform img it.
Proof.
  induction idxs as [|idx rest IH]; intros Hin g.
  - exists [], g. split; [reflexivity|]. split; [reflexivity|].
    intros [|k] idx H; discriminate H.
  - destruct (Hin idx (or_introl eq_refl)) as [Hd Ht].
    destruct (nth_error (data self) idx) as [img|] eqn:Ed;
      [|apply nth_error_None in Ed; lia].
    destruct (nth_error (targets self) idx) as [target|] eqn:Et;
      [|apply nth_error_None in Et; lia].
    destruct (getitem_in_range self idx g img target Ed Et)
      as (x & g1 & Hget & Hpair).
    destruct (IH (fun i Hi => Hin i (or_intror Hi)) g1)
      as (items & g2 & Hf & Hlen & Hk).
    exists ((x, target) :: items), g2. cbn [fetch].
    rewrite Hget. cbn [bind]. rewrite Hf. cbn [bind].
    split; [reflexivity|]. split; [simpl; now rewrite Hlen|].
    intros [|k] idx' H; simpl in H.
    + injection H as <-. exists img, (x, target). auto.
    + apply (Hk k idx' H).
Qed.

(** Blocks of two in a row-major storage. *)
Lemma concat_pairs_nth (items : list (tensor View * Z)) k it a b :
  (forall it', In it' items -> length (storage (fst it')) = 2%nat) ->
  nth_error items k = Some it ->
  storage (fst it) = [a; b] ->
  nth_error (concat (map (fun it => storage (fst it)) items)) (2 * k) = Some a /\
  nth_error (concat (map (fun it => storage (fst it)) items)) (2 * k + 1) = Some b.
Proof.
  revert k; induction items as [|it0 items IH]; intros k Hall Hk Hs.
  - destruct k; discriminate Hk.
  - destruct k as [|k]; simpl in Hk.
    + injection Hk as ->. simpl. rewrite Hs. simpl. auto.
    + assert (H0 := Hall it0 (or_introl eq_refl)).
      destruct (storage (fst it0)) as [|u [|v [|w r]]] eqn:E0; try discriminate H0.
      simpl concat. rewrite E0.
      replace (2 * S k)%nat with (S (S (2 * k))) by lia.
      replace (S (S (2 * k)) + 1)%nat with (S (S (2 * k + 1))) by lia.
      simpl. apply IH; auto. intros it' Hi. apply Hall. now right.
Qed.

Lemma concat_pairs_length (items : list (tensor View * Z)) :
  (forall it', In it' items -> length (storage (fst it')) = 2%nat) ->
  length (concat (map (fun it => storage (fst it)) items)) = (length items * 2)%nat.
Proof.
  induction items as [|it0 items IH]; intros Hall; [reflexivity|].
  simpl. rewrite length_app, (Hall it0 (or_introl eq_refl)), IH; [lia|].
  intros it' Hi. apply Hall. now right.
Qed.

(** C3: a batch of N >= 1 in-range samples loads, flattens to 2N views,
    and the views at the flattened positions 2k and 2k+1 are the two
    elements of pair k, both drawn from the image of the k-th sample. *)
Theorem flatten_keeps_pairs (self : dataset Image) (idxs : list nat) (g : RNG) :
  (1 <= length idxs)%nat ->
  length (targets self) = length (data self) ->
  (forall idx, In idx idxs -> (idx < length (data self))%nat) ->
  exists x y g' flat,
    load_batch transform self idxs g = Ok (x, y, g') /\
    sizes x = [length idxs; 2%nat] /\
    flatten x = Ok flat /\
    sizes flat = [(2 * length idxs)%nat] /\
    length (storage flat) = (2 * length idxs)%nat /\
    forall k idx, nth_error idxs k = Some idx ->
      exists img v0 v1,
        nth_error (data self) idx = Some img /\
        index2 x k 0 = Some v0 /\ index2 x k 1 = Some v1 /\
        index1 flat (2 * k) = Some v0 /\ index1 flat (2 * k + 1) = Some v1 /\
        view_of transform img v0 /\ view_of transform img v1.
Proof.
  intros HN Hlen Hin.
  destruct (fetch_in_range self idxs) with (g := g)
    as (items & g' & Hf & Hl & Hk).
  { intros idx Hi. rewrite Hlen. split; apply Hin, Hi. }
  assert (Hall : forall it, In it items ->
            fst it = {| sizes := [2%nat]; storage := storage (fst it) |} /\
            length (storage (fst it)) = 2%nat).
  { intros it Hi. apply In_nth_error in Hi. destruct Hi as [k Hi].
    assert (Hlt : (k < length idxs)%nat)
      by (rewrite <- Hl; apply nth_error_Some; congruence).
    destruct (nth_error idxs k) as [idx|] eqn:Ei;
      [|apply nth_error_None in Ei; lia].
    destruct (Hk k idx Ei) as (img & it' & _ & Hit & v0 & v1 & Hp & _).
    rewrite Hi in Hit. injection Hit as <-. rewrite Hp. auto. }
  assert (Hall2 : forall it, In it items -> length (storage (fst it)) = 2%nat)
    by (intros it Hi; apply (Hall it Hi)).
  pose (x := fst (collate items)).
  assert (Hsx : sizes x = [length idxs; 2%nat]).
  { unfold x, collate. cbn [fst sizes]. rewrite Hl.
    destruct items as [|[x0 y0] items'].
    - simpl in Hl. lia.
    - destruct (Hall (x0, y0) (or_introl eq_refl)) as [E _].
      cbn [fst] in E. rewrite E. reflexivity. }
  assert (Hst : length (storage x) = (length idxs * 2)%nat).
  { unfold x, collate. cbn [fst storage].
    rewrite concat_pairs_length by assumption. now rewrite Hl. }
  exists x, (snd (collate items)), g',
    {| sizes := [(length idxs * 2)%nat]; storage := storage x |}.
  split.
  { unfold load_batch. rewrite Hf. cbn [bind]. unfold x.
    now destruct (collate items). }
  split; [exact Hsx|].
  split.
  { unfold flatten, view. rewrite Hsx. cbn [nth numel fold_right].
    rewrite Nat.mul_1_r, Hst, Nat.eqb_refl. reflexivity. }
  split; [cbn [sizes]; f_equal; lia|].
  split; [cbn [storage]; lia|].
  intros k idx Ei.
  destruct (Hk k idx Ei) as (img & it & Hd & Hit & v0 & v1 & Hp & Hv0 & Hv1).
  assert (Hlt : (k < length idxs)%nat) by (apply nth_error_Some; congruence).
  destruct (concat_pairs_nth items k it v0 v1 Hall2 Hit) as [H0 H1];
    [now rewrite Hp|].
  exists img, v0, v1. split; [exact Hd|].
  unfold index2, index1. rewrite Hsx. cbn [sizes storage].
  replace (k <? length idxs)%nat with true by (symmetry; apply Nat.ltb_lt; lia).
  replace (2 * k <? length idxs * 2)%nat with true
    by (symmetry; apply Nat.ltb_lt; lia).
  replace (2 * k + 1 <? length idxs * 2)%nat with true
    by (symmetry; apply Nat.ltb_lt; lia).
  cbn [andb Nat.ltb Nat.leb].
  replace (k * 2 + 0)%nat with (2 * k)%nat by lia.
  replace (k * 2 + 1)%nat with (2 * k + 1)%nat by lia.
  unfold x, collate. cbn [fst storage].
  repeat split; assumption.
Qed.

End PairFacts.

(** A concrete pipeline: a view records its image and the draw it came
    from; the generator is a counter. *)
Lemma flatten_keeps_pairs_witness :
  let transform := fun (img : nat) (g : nat) => ((img, g), S g) in
  let self := {| data := [10; 11; 12; 13]%nat; targets := [0; 1; 2; 3]%Z |} in
  exists x y g' flat,
    load_batch transform self [2; 0; 3]%nat 0%nat = Ok (x, y, g') /\
    flatten x = Ok flat /\
    storage flat = [(12, 0); (12, 1); (10, 2); (10, 3); (13, 4); (13, 5)]%nat.
Proof.
  intros transform self.
  destruct (flatten_keeps_pairs transform self [2; 0; 3]%nat 0%nat)
    as (x & y & g' & flat & Hload & _ & Hflat & _).
  - simpl; lia.
  - reflexivity.
  - simpl; intros idx [<-|[<-|[<-|[]]]]; lia.
  - exists x, y, g', flat. split; [exact Hload|]. split; [exact Hflat|].
    cbv in Hload. injection Hload as <- _ _.
    cbv in Hflat. injection Hflat as <-. reflexivity.
Defined.

(** ** The score matrix of the contrastive loss *)

Section Scores.

Import Loss.
Local Open Scope R_scope.

(** *** Entries of the matrix operations *)

Lemma entry_map (f : R -> R) (m : matrix) i j :
  entry (map (map f) m) i j = option_map f (entry m i j).
Proof.
  unfold entry. rewrite nth_error_map.
  destruct (nth_error m i) as [r|]; simpl; [|reflexivity].
  apply nth_error_map.
Qed.

Lemma entry_matmul_t (a b : matrix) i j r c :
  nth_error a i = Some r -> nth_error b j = Some c ->
  entry (matmul_t a b) i j = Some (dot r c).
Proof.
  intros Hr Hc. unfold entry, matmul_t.
  rewrite nth_error_map, Hr. simpl.
  now rewrite nth_error_map, Hc.
Qed.

Lemma nth_error_map2 {A B C : Type} (f : A -> B -> C) a b i u v :
  nth_error a i = Some u -> nth_error b i = Some v ->
  nth_error (map2 f a b) i = Some (f u v).
Proof.
  unfold map2. revert b i; induction a as [|x a IH]; intros [|y b] [|i] Hu Hv;
    try discriminate; simpl in *.
  - injection Hu as ->. injection Hv as ->. reflexivity.
  - now apply IH.
Qed.

Lemma entry_sub (a b : matrix) i j u v :
  entry a i j = Some u -> entry b i j = Some v ->
  entry (sub a b) i j = Some (u - v).
Proof.
  unfold entry, sub. intros Ha Hb.
  destruct (nth_error a i) as [ra|] eqn:Ea; [|discriminate].
  destruct (nth_error b i) as [rb|] eqn:Eb; [|discriminate].
  rewrite (nth_error_map2 _ a b i ra rb Ea Eb).
  now apply nth_error_map2.
Qed.

Lemma entry_eye n i j :
  (i < n)%nat -> (j < n)%nat ->
  entry (eye n) i j = Some (if (i =? j)%nat then 1 else 0).
Proof.
  intros Hi Hj. unfold entry, eye.
  rewrite nth_error_map, nth_error_seq.
  destruct (Nat.ltb_spec i n); [|lia]. simpl.
  rewrite nth_error_map, nth_error_seq.
  destruct (Nat.ltb_spec j n); [|lia]. reflexivity.
Qed.

(** *** Shapes: every stage is a square matrix on the rows of [x] *)

Lemma square_map (f : R -> R) n m : square n m -> square n (map (map f) m).
Proof.
  intros [L Hr]. split; [now rewrite length_map|].
  intros r Hin. apply in_map_iff in Hin. destruct Hin as (r0 & <- & Hin).
  rewrite length_map. now apply Hr.
Qed.

Lemma square_matmul_t (a : matrix) : square (length a) (matmul_t a a).
Proof.
  unfold matmul_t. split; [now rewrite length_map|].
  intros r Hin. apply in_map_iff in Hin. destruct Hin as (r0 & <- & Hin).
  now rewrite length_map.
Qed.

Lemma square_x_scores x : square (length x) (x_scores x).
Proof.
  unfold x_scores, clamp. apply square_map.
  replace (length x) with (length (normalize x))
    by (unfold normalize; apply length_map).
  apply square_matmul_t.
Qed.

Lemma square_x_scale x t : square (length x) (x_scale x t).
Proof. unfold x_scale, div_scalar. apply square_map, square_x_scores. Qed.

Lemma length_map2 {A B C : Type} (f : A -> B -> C) a b :
  length (map2 f a b) = Nat.min (length a) (length b).
Proof. unfold map2. now rewrite length_map, length_combine. Qed.

Lemma square_eye n : square n (eye n).
Proof.
  unfold eye. split; [now rewrite length_map, length_seq|].
  intros r Hin. apply in_map_iff in Hin. destruct Hin as (i & <- & _).
  now rewrite length_map, length_seq.
Qed.

Lemma square_sub n a b : square n a -> square n b -> square n (sub a b).
Proof.
  intros [La Ha] [Lb Hb]. unfold sub. split.
  - rewrite length_map2, La, Lb. apply Nat.min_id.
  - intros r Hin. unfold map2 in Hin. apply in_map_iff in Hin.
    destruct Hin as ([u v] & <- & Hin).
    change (length (map2 Rminus u v) = n).
    rewrite length_map2.
    rewrite (Ha u) by (eapply in_combine_l; eassumption).
    rewrite (Hb v) by (eapply in_combine_r; eassumption).
    apply Nat.min_id.
Qed.

Lemma square_x_scale_masked x t : square (length x) (x_scale_masked x t).
Proof.
  unfold x_scale_masked. destruct (square_x_scale x t) as [L H].
  apply square_sub; [now split|].
  rewrite L. unfold mul_scalar. apply square_map, square_eye.
Qed.

(** *** Inner products and the normalisation *)

Lemma dot_cons a u b v : dot (a :: u) (b :: v) = a * b + dot u v.
Proof. reflexivity. Qed.

Lemma dot_self_nonneg u : 0 <= dot u u.
Proof.
  induction u as [|a u IH]; [unfold dot, sum; simpl; lra|].
  rewrite dot_cons. assert (0 <= a * a) by nra. lra.
Qed.

Lemma dot_div u v d e :
  d <> 0 -> e <> 0 ->
  dot (map (fun a => a / d) u) (map (fun a => a / e) v) = dot u v / (d * e).
Proof.
  intros Hd He. revert v; induction u as [|a u IH]; intros [|b v];
    try (unfold dot, sum, map2; simpl; field; auto).
  cbn [map]. rewrite !dot_cons, IH. field. auto.
Qed.

Lemma normalize_denom_pos u : 0 < Rmax (norm u) eps.
Proof.
  apply Rlt_le_trans with eps; [unfold eps; lra | apply Rmax_r].
Qed.

Lemma dot_normalize_row u v :
  dot (normalize_row u) (normalize_row v)
  = dot u v / (Rmax (norm u) eps * Rmax (norm v) eps).
Proof.
  unfold normalize_row. apply dot_div.
  - assert (H := normalize_denom_pos u). lra.
  - assert (H := normalize_denom_pos v). lra.
Qed.

Lemma norm_sqr u : norm u * norm u = dot u u.
Proof. unfold norm. apply sqrt_sqrt, dot_self_nonneg. Qed.

Lemma norm_nonneg u : 0 <= norm u.
Proof. unfold norm. apply sqrt_pos. Qed.

(** A row of norm at least [eps] is mapped to a unit vector. *)
Lemma normalize_row_unit u :
  eps <= norm u -> dot (normalize_row u) (normalize_row u) = 1.
Proof.
  intros H. rewrite dot_normalize_row, Rmax_left by assumption.
  rewrite norm_sqr. rewrite <- norm_sqr.
  assert (0 < norm u) by (unfold eps in H; lra).
  field. lra.
Qed.

(** Whatever the row, its similarity with itself is at most 1. *)
Lemma self_similarity_le_1 u :
  dot (normalize_row u) (normalize_row u) <= 1.
Proof.
  rewrite dot_normalize_row.
  set (m := Rmax (norm u) eps).
  assert (Hm : 0 < m) by apply normalize_denom_pos.
  assert (Hn : norm u <= m) by apply Rmax_l.
  assert (H0 := norm_nonneg u).
  assert (Hq : dot u u <= m * m) by (rewrite <- norm_sqr; nra).
  apply Rmult_le_reg_r with (m * m); [nra|].
  unfold Rdiv. rewrite Rmult_assoc, Rinv_l by nra. lra.
Qed.

(** *** Entries of the three stages *)

Lemma entry_x_scores x i j ri rj :
  nth_error x i = Some ri -> nth_error x j = Some rj ->
  entry (x_scores x) i j
  = Some (Rmax (dot (normalize_row ri) (normalize_row rj)) 1e-7).
Proof.
  intros Hi Hj. unfold x_scores, clamp. rewrite entry_map.
  rewrite (entry_matmul_t _ _ i j (normalize_row ri) (normalize_row rj)).
  - reflexivity.
  - unfold normalize. now rewrite nth_error_map, Hi.
  - unfold normalize. now rewrite nth_error_map, Hj.
Qed.

Lemma entry_x_scale x t i j ri rj :
  nth_error x i = Some ri -> nth_error x j = Some rj ->
  entry (x_scale x t) i j
  = Some (Rmax (dot (normalize_row ri) (normalize_row rj)) 1e-7 / t).
Proof.
  intros Hi Hj. unfold x_scale, div_scalar.
  now rewrite entry_map, (entry_x_scores x i j ri rj Hi Hj).
Qed.

Lemma entry_x_scale_masked x t i j s :
  entry (x_scale x t) i j = Some s ->
  entry (x_scale_masked x t) i j
  = Some (s - (if (i =? j)%nat then 1 else 0) * 1e5).
Proof.
  intros Hs. unfold x_scale_masked.
  destruct (square_x_scale x t) as [L Hrows].
  assert (Hi : (i < length x)%nat).
  { rewrite <- L. apply nth_error_Some. unfold entry in Hs.
    destruct (nth_error (x_scale x t) i); congruence. }
  assert (Hj : (j < length x)%nat).
  { unfold entry in Hs.
    destruct (nth_error (x_scale x t) i) as [r|] eqn:E; [|discriminate].
    rewrite <- (Hrows r) by (eapply nth_error_In; eassumption).
    apply nth_error_Some. congruence. }
  apply entry_sub; [assumption|].
  unfold mul_scalar. rewrite entry_map, L, entry_eye by assumption.
  reflexivity.
Qed.

(** *** The list operations against the indexed formula *)

Lemma spec_sum_ext f g k n :
  (forall m, f m = g m) -> spec_sum f k n = spec_sum g k n.
Proof.
  intros H. revert k; induction n as [|n IH]; intros k; [reflexivity|].
  cbn [spec_sum]. now rewrite H, IH.
Qed.

Lemma spec_sum_shift f k n :
  spec_sum f (S k) n = spec_sum (fun m => f (S m)) k n.
Proof.
  revert k; induction n as [|n IH]; intros k; [reflexivity|].
  cbn [spec_sum]. now rewrite IH.
Qed.

Lemma dot_spec_sum u v :
  length u = length v ->
  dot u v = spec_sum (fun k => nth k u 0 * nth k v 0) 0 (length u).
Proof.
  revert v; induction u as [|a u IH]; intros [|b v] L; try discriminate L.
  - reflexivity.
  - injection L as L. rewrite dot_cons, (IH v L).
    cbn [length spec_sum nth]. now rewrite spec_sum_shift.
Qed.

Lemma nth_normalize_row u k :
  nth k (normalize_row u) 0 = nth k u 0 / Rmax (norm u) eps.
Proof.
  unfold normalize_row.
  rewrite <- (map_nth (fun a => a / Rmax (norm u) eps) u 0 k).
  f_equal. unfold Rdiv. ring.
Qed.

Lemma length_normalize_row u : length (normalize_row u) = length u.
Proof. unfold normalize_row. apply length_map. Qed.

Section AgainstSpec.

Variable x : matrix.
Variable D : nat.
Hypothesis Hrect : forall r, In r x -> length r = D.

Lemma spec_row_nth i ri k :
  nth_error x i = Some ri -> spec_row x i k = nth k ri 0.
Proof.
  intros Hi. unfold spec_row. now rewrite (nth_error_nth x i [] Hi).
Qed.

Lemma spec_l2norm_norm i ri :
  nth_error x i = Some ri -> spec_l2norm x D i = norm ri.
Proof.
  intros Hi. unfold spec_l2norm, norm. f_equal.
  rewrite (dot_spec_sum ri ri eq_refl).
  rewrite (Hrect ri) by (eapply nth_error_In; eassumption).
  apply spec_sum_ext. intros k. now rewrite (spec_row_nth i ri k Hi).
Qed.

Lemma spec_normalized_nth i ri k :
  nth_error x i = Some ri ->
  spec_normalized x D i k = nth k (normalize_row ri) 0.
Proof.
  intros Hi. unfold spec_normalized.
  rewrite (spec_row_nth i ri k Hi), (spec_l2norm_norm i ri Hi).
  now rewrite nth_normalize_row.
Qed.

Lemma spec_similarity_dot i j ri rj :
  nth_error x i = Some ri -> nth_error x j = Some rj ->
  spec_similarity x D i j = dot (normalize_row ri) (normalize_row rj).
Proof.
  intros Hi Hj.
  assert (Li : length ri = D)
    by (apply Hrect; eapply nth_error_In; eassumption).
  assert (Lj : length rj = D)
    by (apply Hrect; eapply nth_error_In; eassumption).
  rewrite dot_spec_sum by (rewrite !length_normalize_row; congruence).
  rewrite length_normalize_row, Li. unfold spec_similarity.
  apply spec_sum_ext. intros k.
  now rewrite (spec_normalized_nth i ri k Hi), (spec_normalized_nth j rj k Hj).
Qed.

End AgainstSpec.

(** C5: on every representation matrix (rows of one length D) the code
    computes what the specification says, in its order: entry (i, k) of
    the normalised matrix is x[i][k] over the floored Euclidean norm of
    row i; entry (i, j) of the product is the inner product of the
    normalised rows i and j; the score is that product clamped from below
    at 1e-7, so it is at least 1e-7 and equal to 1e-7 where the
    similarity is negative; and the scaled score is the clamped score
    over the temperature. All stages are square on the rows of x. *)
Theorem scores_refine_spec (x : matrix) (D : nat) (t : R) (i j : nat) :
  (forall r, In r x -> length r = D) ->
  (i < length x)%nat -> (j < length x)%nat ->
  square (length x) (x_scores x) /\
  square (length x) (x_scale x t) /\
  (forall k, (k < D)%nat ->
     entry (normalize x) i k = Some (spec_normalized x D i k)) /\
  entry (matmul_t (normalize x) (normalize x)) i j
  = Some (spec_similarity x D i j) /\
  entry (x_scores x) i j = Some (spec_clamped x D i j) /\
  1e-7 <= spec_clamped x D i j /\
  (spec_similarity x D i j < 0 -> entry (x_scores x) i j = Some 1e-7) /\
  entry (x_scale x t) i j = Some (spec_scaled x D t i j).
Proof.
  intros Hrect Hi Hj.
  destruct (nth_error x i) as [ri|] eqn:Ei; [|apply nth_error_None in Ei; lia].
  destruct (nth_error x j) as [rj|] eqn:Ej; [|apply nth_error_None in Ej; lia].
  assert (S := spec_similarity_dot x D Hrect i j ri rj Ei Ej).
  assert (C : entry (x_scores x) i j = Some (spec_clamped x D i j))
    by (unfold spec_clamped; rewrite S; now apply entry_x_scores).
  split; [apply square_x_scores|].
  split; [apply square_x_scale|].
  split.
  { intros k Hk. unfold entry, normalize. rewrite nth_error_map, Ei.
    cbn [option_map]. rewrite (spec_normalized_nth x D Hrect i ri k Ei).
    apply nth_error_nth'. rewrite length_normalize_row.
    rewrite (Hrect ri) by (eapply nth_error_In; eassumption). exact Hk. }
  split.
  { rewrite S. apply entry_matmul_t; unfold normalize; rewrite nth_error_map.
    - now rewrite Ei.
    - now rewrite Ej. }
  split; [exact C|].
  split; [apply Rmax_r|].
  split.
  - intros Hneg. rewrite C. unfold spec_clamped.
    rewrite Rmax_right by lra. reflexivity.
  - unfold spec_scaled, spec_clamped. rewrite S. now apply entry_x_scale.
Qed.

(** Two opposite rows: their similarity is -1 and the clamped score is
    the floor. *)
Lemma scores_refine_spec_witness :
  entry (x_scores [[1]; [-1]]) 0 1 = Some 1e-7 /\
  entry (x_scale [[1]; [-1]] 0.5) 0 1 = Some (1e-7 / 0.5).
Proof.
  destruct (scores_refine_spec [[1]; [-1]] 1 0.5 0 1)
    as (_ & _ & _ & _ & _ & _ & Hneg & Hscale).
  - intros r [<-|[<-|[]]]; reflexivity.
  - simpl; lia.
  - simpl; lia.
  - assert (S : spec_similarity [[1]; [-1]] 1 0 1 = -1).
    { unfold spec_similarity, spec_normalized, spec_l2norm, spec_row.
      cbn [spec_sum nth].
      replace (1 * 1 + 0) with 1 by ring.
      replace (-1 * -1 + 0) with 1 by ring.
      rewrite sqrt_1, Rmax_left by lra. field. }
    split.
    + apply Hneg. rewrite S. lra.
    + rewrite Hscale. unfold spec_scaled, spec_clamped.
      rewrite S, Rmax_right by lra. reflexivity.
Defined.

(** *** The softmax over a masked row *)

Lemma nth_error_softmax row i :
  nth_error (softmax row) i
  = option_map (fun v => exp v / sum (map exp row)) (nth_error row i).
Proof. unfold softmax. apply nth_error_map. Qed.

Lemma sum_exp_nonneg row : 0 <= sum (map exp row).
Proof.
  induction row as [|v row IH]; [unfold sum; simpl; lra|].
  unfold sum in *. simpl. assert (H := exp_pos v). lra.
Qed.

Lemma sum_exp_ge row k v :
  nth_error row k = Some v -> exp v <= sum (map exp row).
Proof.
  revert k; induction row as [|u row IH]; intros [|k] H; try discriminate.
  - injection H as ->. assert (N := sum_exp_nonneg row).
    unfold sum in *. simpl. lra.
  - specialize (IH k H). assert (P := exp_pos u).
    unfold sum in *. simpl. lra.
Qed.

Lemma exp_le a b : a <= b -> exp a <= exp b.
Proof.
  intros [H| ->]; [left; now apply exp_increasing | right; reflexivity].
Qed.

(** With a second entry that is not negative, the probability of an entry
    is below its exponential. *)
Lemma softmax_le_exp row i k vi vk :
  nth_error row i = Some vi -> nth_error row k = Some vk -> 0 <= vk ->
  exists p, nth_error (softmax row) i = Some p /\ 0 < p /\ p <= exp vi.
Proof.
  intros Hi Hk Hpos. rewrite nth_error_softmax, Hi. simpl.
  eexists; split; [reflexivity|].
  assert (Z1 : 1 <= sum (map exp row)).
  { apply Rle_trans with (exp vk); [|now apply (sum_exp_ge row k)].
    rewrite <- exp_0. now apply exp_le. }
  assert (E := exp_pos vi).
  split.
  - apply Rdiv_lt_0_compat; lra.
  - apply Rmult_le_reg_r with (sum (map exp row)); [lra|].
    unfold Rdiv. rewrite Rmult_assoc, Rinv_l by lra. nra.
Qed.

Lemma entry_row (m : matrix) i j v :
  entry m i j = Some v ->
  exists row, nth_error m i = Some row /\ nth_error row j = Some v.
Proof.
  unfold entry. destruct (nth_error m i) as [row|]; [|discriminate].
  intros H. now exists row.
Qed.

Lemma exp_minus_90000 : exp (10000 - 1e5) < 1e-4.
Proof.
  replace (10000 - 1e5) with (Ropp 90000) by lra.
  rewrite exp_Ropp.
  assert (H : 1 + 90000 < exp 90000) by (apply exp_ineq1; lra).
  apply Rlt_trans with (/ (1 + 90000)).
  - apply Rinv_0_lt_contravar; lra.
  - apply Rmult_lt_reg_r with (1 + 90000); [lra|].
    rewrite Rinv_l by lra. lra.
Qed.

Lemma div_le_inv s t : 0 < t -> s <= 1 -> s / t <= 1 / t.
Proof.
  intros Ht Hs. unfold Rdiv.
  apply Rmult_le_compat_r; [left; now apply Rinv_0_lt_compat | assumption].
Qed.

Lemma inv_le_10000 t : 1e-4 <= t -> 1 / t <= 10000.
Proof.
  intros Ht. apply Rmult_le_reg_r with t; [lra|].
  unfold Rdiv. rewrite Rmult_assoc, Rinv_l by lra. lra.
Qed.

(** X22: 1e5 is subtracted on the diagonal of the scaled scores and
    nowhere else; for a temperature t >= 1e-4 and at least two rows this
    does what the comment on the code promises: the softmax probability
    of the self-entry of every row is below 1e-4. *)
Theorem masked_diagonal_only (x : matrix) (t : R) (i j : nat) :
  (i < length x)%nat -> (j < length x)%nat ->
  exists s,
    entry (x_scale x t) i j = Some s /\
    entry (x_scale_masked x t) i j
    = Some (if (i =? j)%nat then s - 1e5 else s) /\
    (1e-4 <= t -> (2 <= length x)%nat ->
     exists row p,
       nth_error (x_scale_masked x t) i = Some row /\
       nth_error (softmax row) i = Some p /\
       p < 1e-4).
Proof.
  intros Hi Hj.
  destruct (nth_error x i) as [ri|] eqn:Ei; [|apply nth_error_None in Ei; lia].
  destruct (nth_error x j) as [rj|] eqn:Ej; [|apply nth_error_None in Ej; lia].
  assert (Sij := entry_x_scale x t i j ri rj Ei Ej).
  eexists. split; [exact Sij|]. split.
  { rewrite (entry_x_scale_masked x t i j _ Sij).
    f_equal. destruct (i =? j)%nat; lra. }
  intros Ht4 Hlen. assert (Ht : 0 < t) by lra.
  (* the self-entry of row i *)
  assert (Sii := entry_x_scale x t i i ri ri Ei Ei).
  assert (Mii := entry_x_scale_masked x t i i _ Sii).
  rewrite Nat.eqb_refl in Mii.
  destruct (entry_row _ _ _ _ Mii) as (row & Hrow & Hvi).
  (* another entry of row i *)
  set (k := if (i =? 0)%nat then 1%nat else 0%nat).
  assert (Hki : (i =? k)%nat = false)
    by (unfold k; destruct i; reflexivity).
  assert (Hk : (k < length x)%nat)
    by (unfold k; destruct (i =? 0)%nat; lia).
  destruct (nth_error x k) as [rk|] eqn:Ek;
    [|apply nth_error_None in Ek; lia].
  assert (Sik := entry_x_scale x t i k ri rk Ei Ek).
  assert (Mik := entry_x_scale_masked x t i k _ Sik).
  rewrite Hki in Mik.
  destruct (entry_row _ _ _ _ Mik) as (row' & Hrow' & Hvk).
  rewrite Hrow in Hrow'. injection Hrow' as <-.
  set (sii := Rmax (dot (normalize_row ri) (normalize_row ri)) 1e-7) in *.
  set (sik := Rmax (dot (normalize_row ri) (normalize_row rk)) 1e-7) in *.
  assert (Hsik : 0 <= sik / t - 0 * 1e5).
  { assert (1e-7 <= sik) by apply Rmax_r.
    assert (0 < sik / t) by (apply Rdiv_lt_0_compat; lra). lra. }
  assert (Hsii : sii / t <= 1 / t).
  { apply div_le_inv; [assumption|].
    apply Rmax_lub; [apply self_similarity_le_1 | lra]. }
  destruct (softmax_le_exp row i k _ _ Hvi Hvk Hsik) as (p & Hp & Hp0 & Hple).
  exists row, p. split; [exact Hrow|]. split; [exact Hp|].
  apply Rle_lt_trans with (1 := Hple).
  apply Rle_lt_trans with (exp (10000 - 1e5)); [|apply exp_minus_90000].
  apply exp_le. assert (H := inv_le_10000 t Ht4). lra.
Qed.

Lemma masked_diagonal_only_witness :
  exists s,
    entry (x_scale [[1; 0]; [0; 1]] 0.5) 0 0 = Some s /\
    entry (x_scale_masked [[1; 0]; [0; 1]] 0.5) 0 0 = Some (s - 1e5) /\
    exists row p,
      nth_error (x_scale_masked [[1; 0]; [0; 1]] 0.5) 0 = Some row /\
      nth_error (softmax row) 0 = Some p /\ p < 1e-4.
Proof.
  destruct (masked_diagonal_only [[1; 0]; [0; 1]] 0.5 0 0)
    as (s & Hs & Hm & Hp); [simpl; lia | simpl; lia |].
  exists s. split; [exact Hs|]. split; [exact Hm|].
  apply Hp; [lra | simpl; lia].
Defined.

(** C4: the code at a small temperature. At t = 1e-6 the diagonal of two
    orthogonal rows is 1e6 - 1e5 after the subtraction, far above the
    partner's 0.1: the self-entry of the first row keeps more than half
    of the softmax probability, against the claim and against the
    comment in the code. *)
Lemma diagonal_not_suppressed :
  0 < 1e-6 /\
  exists row p,
    nth_error (x_scale_masked [[1; 0]; [0; 1]] 1e-6) 0 = Some row /\
    nth_error (softmax row) 0 = Some p /\
    1 / 2 < p.
Proof.
  split; [lra|].
  assert (N0 : norm [1; 0] = 1).
  { unfold norm, dot, sum, map2. simpl.
    replace (1 * 1 + (0 * 0 + 0)) with 1 by ring. apply sqrt_1. }
  assert (N1 : norm [0; 1] = 1).
  { unfold norm, dot, sum, map2. simpl.
    replace (0 * 0 + (1 * 1 + 0)) with 1 by ring. apply sqrt_1. }
  assert (D00 : dot (normalize_row [1; 0]) (normalize_row [1; 0]) = 1).
  { apply normalize_row_unit. rewrite N0. unfold eps. lra. }
  assert (D01 : dot (normalize_row [1; 0]) (normalize_row [0; 1]) = 0).
  { rewrite dot_normalize_row, N0, N1.
    rewrite Rmax_left by (unfold eps; lra).
    unfold dot, sum, map2. simpl. field. }
  assert (S00 := entry_x_scale [[1; 0]; [0; 1]] 1e-6 0 0 _ _ eq_refl eq_refl).
  assert (S01 := entry_x_scale [[1; 0]; [0; 1]] 1e-6 0 1 _ _ eq_refl eq_refl).
  assert (M00 := entry_x_scale_masked _ _ 0 0 _ S00).
  assert (M01 := entry_x_scale_masked _ _ 0 1 _ S01).
  rewrite D00 in M00. rewrite D01 in M01. cbn [Nat.eqb] in M00, M01.
  rewrite Rmax_left in M00 by lra. rewrite Rmax_right in M01 by lra.
  destruct (entry_row _ _ _ _ M00) as (row & Hrow & H0).
  destruct (entry_row _ _ _ _ M01) as (row' & Hrow' & H1).
  rewrite Hrow in Hrow'. injection Hrow' as <-.
  assert (Hlen : length row = 2%nat).
  { destruct (square_x_scale_masked [[1; 0]; [0; 1]] 1e-6) as [_ H].
    apply H. eapply nth_error_In. exact Hrow. }
  destruct row as [|a [|b [|c row]]]; try discriminate Hlen.
  injection H0 as ->. injection H1 as ->.
  eexists; eexists. split; [exact Hrow|].
  split; [rewrite nth_error_softmax; reflexivity|].
  unfold sum. cbn [map fold_right].
  set (a := 1 / 1e-6 - 1 * 1e5). set (b := 1e-7 / 1e-6 - 0 * 1e5).
  assert (Hab : exp b < exp a) by (apply exp_increasing; unfold a, b; lra).
  assert (Ea := exp_pos a). assert (Eb := exp_pos b).
  apply Rmult_lt_reg_r with (exp a + (exp b + 0)); [lra|].
  unfold Rdiv at 2. rewrite Rmult_assoc, Rinv_l by lra. lra.
Qed.

(** *** The loss is defined on an even number of rows *)

Lemma targets_in_range N z :
  In z (targets (2 * N)) -> (0 <= z < Z.of_nat (2 * N))%Z.
Proof.
  intros Hin. apply In_nth_error in Hin. destruct Hin as [i Hi].
  assert (Hlt : (i < 2 * N)%nat).
  { rewrite <- (targets_length (2 * N)). apply nth_error_Some. congruence. }
  rewrite targets_nth in Hi by assumption. injection Hi as <-.
  destruct (Nat.even i) eqn:E.
  - apply Nat.even_spec in E. destruct E as [m ->]. lia.
  - destruct i as [|i]; [discriminate E | lia].
Qed.

Lemma nll_defined row target :
  (0 <= target < Z.of_nat (length row))%Z ->
  exists l, nll row target = Ok l.
Proof.
  intros [H0 H1]. unfold nll.
  replace (0 <=? target)%Z with true by (symmetry; apply Z.leb_le; lia).
  replace (target <? Z.of_nat (length row))%Z with true
    by (symmetry; apply Z.ltb_lt; lia).
  cbn [andb].
  destruct (nth_error (softmax row) (Z.to_nat target)) as [p|] eqn:E.
  - eexists; reflexivity.
  - apply nth_error_None in E. unfold softmax in E.
    rewrite length_map in E. lia.
Qed.

Lemma nll_rows_defined n logits tgts :
  (forall r, In r logits -> length r = n) ->
  (forall z, In z tgts -> (0 <= z < Z.of_nat n)%Z) ->
  exists ls, nll_rows logits tgts = Ok ls.
Proof.
  revert tgts; induction logits as [|row logits IH]; intros tgts Hr Hz.
  - exists []. reflexivity.
  - destruct tgts as [|target tgts]; [exists []; reflexivity|].
    cbn [nll_rows].
    destruct (nll_defined row target) as [l ->].
    { rewrite (Hr row) by (now left). apply Hz. now left. }
    cbn [bind].
    destruct (IH tgts) as [ls ->].
    { intros r Hi. apply Hr. now right. }
    { intros z Hi. apply Hz. now right. }
    cbn [bind]. eexists; reflexivity.
Qed.

Lemma nt_xent_defined x t N :
  length x = (2 * N)%nat -> exists loss, nt_xent x t = Ok loss.
Proof.
  intros Hlen. unfold nt_xent, cross_entropy.
  destruct (square_x_scale_masked x t) as [_ Hrows].
  destruct (nll_rows_defined (length x) (x_scale_masked x t)
              (targets (length x)) Hrows) as [ls ->].
  - rewrite Hlen. apply targets_in_range.
  - cbn [bind]. eexists; reflexivity.
Qed.

End Scores.

(** ** The cosine schedule *)

Section Schedule.

Local Open Scope R_scope.

Lemma get_lr_defined step total lr_max lr_min :
  total <> 0%Z ->
  get_lr step total lr_max lr_min = Ok (spec_lr step total lr_max lr_min).
Proof.
  intros H. unfold get_lr, spec_lr.
  destruct (Z.eqb_spec total 0); [contradiction | reflexivity].
Qed.

Lemma spec_lr_start total lr_max lr_min :
  spec_lr 0 total lr_max lr_min = lr_max.
Proof.
  unfold spec_lr.
  replace (0 / IZR total * PI) with 0 by (unfold Rdiv; ring).
  rewrite cos_0. lra.
Qed.

Lemma spec_lr_end total lr_max lr_min :
  total <> 0%Z -> spec_lr total total lr_max lr_min = lr_min.
Proof.
  intros H. unfold spec_lr.
  assert (IZR total <> 0) by (now apply not_0_IZR).
  replace (IZR total / IZR total * PI) with PI by (field; assumption).
  rewrite cos_PI. lra.
Qed.

(** C2: the code at a usual configuration. [train] hands the configured
    learning rate to [get_lr] as [lr_max], so the factor the scheduler
    starts with is that rate and not 1: with learning_rate = 0.6 it is
    below 1, and the rate the optimizer is given at step 0 is below the
    configured one. *)
Theorem lr_factor_starts_below_one :
  let args := {| backbone := "resnet18"; learning_rate := 0.6;
                 temperature := 0.5; epochs := 4; log_interval := 1 |} in
  let env := {| cuda_is_available := true; len_train_loader := 3 |} in
  exists s0,
    LambdaLR (lr_lambda args env) = Ok s0 /\
    Ok (factor s0) = get_lr 0 12 0.6 1e-3 /\
    factor s0 < 1 /\
    current_lr args s0 < learning_rate args.
Proof.
  intros args env. unfold LambdaLR, lr_lambda.
  assert (T : total_steps args env = 12%Z) by reflexivity.
  rewrite T. cbn [learning_rate args].
  rewrite get_lr_defined by lia. cbn [bind].
  eexists. split; [reflexivity|]. split; [reflexivity|].
  unfold current_lr. cbn [factor learning_rate args].
  rewrite spec_lr_start. lra.
Qed.

(** C6: on [0, total_steps] the function returns the cosine formula, its
    value at the last step is [lr_min], and the floor the training loop
    passes is 1e-3, which is not zero. *)
Theorem get_lr_formula (args : Args) (env : Env) (step total : Z)
  (lr_max lr_min : R) :
  (1 <= total)%Z -> (0 <= step <= total)%Z ->
  get_lr step total lr_max lr_min
  = Ok (lr_min + (lr_max - lr_min) * 0.5
                 * (1 + cos (IZR step / IZR total * PI))) /\
  get_lr step total lr_max lr_min = Ok (spec_lr step total lr_max lr_min) /\
  get_lr total total lr_max lr_min = Ok lr_min /\
  ((1 <= total_steps args env)%Z ->
   lr_lambda args env (total_steps args env) = Ok 1e-3 /\ 1e-3 <> 0).
Proof.
  intros Ht Hs.
  assert (Hz : total <> 0%Z) by lia.
  split; [apply (get_lr_defined step total lr_max lr_min Hz)|].
  split; [apply (get_lr_defined step total lr_max lr_min Hz)|].
  split.
  - rewrite get_lr_defined by assumption. now rewrite spec_lr_end.
  - intros Hts. split; [|lra]. unfold lr_lambda.
    rewrite get_lr_defined by lia. rewrite spec_lr_end by lia. reflexivity.
Qed.

Lemma get_lr_formula_witness :
  let args := {| backbone := "resnet18"; learning_rate := 0.6;
                 temperature := 0.5; epochs := 4; log_interval := 1 |} in
  let env := {| cuda_is_available := true; len_train_loader := 3 |} in
  get_lr 5 12 0.6 1e-3
  = Ok (1e-3 + (0.6 - 1e-3) * 0.5 * (1 + cos (5 / 12 * PI))) /\
  lr_lambda args env 12 = Ok 1e-3.
Proof.
  intros args env.
  destruct (get_lr_formula args env 5 12 0.6 1e-3) as (H & _ & _ & Hend);
    [lia | lia |].
  split; [exact H|].
  apply Hend. unfold total_steps. simpl. lia.
Defined.

End Schedule.

(** ** The control flow of [train] *)

Lemma string_in_spec s l : string_in s l = true <-> In s l.
Proof.
  unfold string_in. rewrite existsb_exists. split.
  - intros (x & Hx & E). apply String.eqb_eq in E. now subst.
  - intros H. exists s. split; [assumption | apply String.eqb_refl].
Qed.

(** Every exception past the two assertions is a division by zero. *)
Create HintDb train.
#[local] Hint Constructors only_zero_division : train.

Lemma get_lr_errors step total lr_max lr_min :
  only_zero_division (get_lr step total lr_max lr_min).
Proof. unfold get_lr. destruct (total =? 0)%Z; auto with train. Qed.

Lemma lr_lambda_errors args env step :
  only_zero_division (lr_lambda args env step).
Proof. apply get_lr_errors. Qed.

Lemma LambdaLR_errors args env :
  only_zero_division (LambdaLR (lr_lambda args env)).
Proof.
  unfold LambdaLR.
  destruct (lr_lambda_errors args env 0); cbn [bind]; auto with train.
Qed.

Lemma scheduler_step_errors args env s :
  only_zero_division (scheduler_step (lr_lambda args env) s).
Proof.
  unfold scheduler_step.
  destruct (lr_lambda_errors args env (last_epoch s + 1));
    cbn [bind]; auto with train.
Qed.

Lemma train_batches_errors args env epoch n s :
  only_zero_division (snd (train_batches (lr_lambda args env) epoch n s)).
Proof.
  revert s; induction n as [|n IH]; intros s; cbn [train_batches].
  - simpl; auto with train.
  - destruct (scheduler_step_errors args env s) as [s'|].
    + specialize (IH s').
      destruct (train_batches (lr_lambda args env) epoch n s') as [tr r].
      exact IH.
    + simpl; auto with train.
Qed.

Lemma should_save_errors epoch L : only_zero_division (should_save epoch L).
Proof.
  unfold should_save.
  destruct (epoch >=? L)%Z, (L =? 0)%Z; auto with train.
Qed.

Lemma end_of_epoch_errors args epoch :
  only_zero_division (snd (end_of_epoch args epoch)).
Proof.
  unfold end_of_epoch.
  destruct (should_save_errors epoch (log_interval args)) as [[|]|];
    simpl; auto with train.
Qed.

Lemma train_epochs_errors args env todo :
  forall s, only_zero_division (snd (train_epochs args env todo s)).
Proof.
  induction todo as [|epoch todo IH]; intros s; cbn [train_epochs].
  - simpl; auto with train.
  - assert (B := train_batches_errors args env epoch (len_train_loader env) s).
    destruct (train_batches (lr_lambda args env) epoch (len_train_loader env) s)
      as [tr1 [s1|e1]]; [|inversion B; simpl; auto with train].
    assert (E := end_of_epoch_errors args epoch).
    destruct (end_of_epoch args epoch) as [tr2 [u|e2]];
      [|inversion E; simpl; auto with train].
    specialize (IH s1).
    destruct (train_epochs args env todo s1) as [tr3 r]. exact IH.
Qed.

(** The run, once the schedule is defined and the log interval is not
    zero: every epoch makes one step per batch and then its end-of-epoch
    work. *)
Lemma lr_lambda_defined args env step :
  total_steps args env <> 0%Z ->
  exists f, lr_lambda args env step = Ok f.
Proof.
  intros H. unfold lr_lambda. rewrite get_lr_defined by assumption.
  eexists; reflexivity.
Qed.

Lemma train_batches_defined args env epoch n :
  total_steps args env <> 0%Z ->
  forall s, exists s',
    train_batches (lr_lambda args env) epoch n s
    = (repeat (OptimizerStep epoch) n, Ok s').
Proof.
  intros H. induction n as [|n IH]; intros s; cbn [train_batches repeat].
  - now exists s.
  - unfold scheduler_step.
    destruct (lr_lambda_defined args env (last_epoch s + 1) H) as [f ->].
    cbn [bind].
    destruct (IH {| last_epoch := last_epoch s + 1; factor := f |}) as [s' ->].
    now exists s'.
Qed.

Lemma end_of_epoch_defined args epoch :
  log_interval args <> 0%Z -> snd (end_of_epoch args epoch) = Ok tt.
Proof.
  intros H. unfold end_of_epoch, should_save.
  destruct (epoch >=? log_interval args)%Z; [|reflexivity].
  destruct (Z.eqb_spec (log_interval args) 0); [contradiction|].
  destruct (epoch mod log_interval args =? 0)%Z; reflexivity.
Qed.

Lemma train_epochs_defined args env todo :
  total_steps args env <> 0%Z -> log_interval args <> 0%Z ->
  forall s,
    train_epochs args env todo s = (flat_map (epoch_trace args env) todo, Ok tt).
Proof.
  intros Ht HL. induction todo as [|epoch todo IH]; intros s;
    cbn [train_epochs flat_map]; [reflexivity|].
  destruct (train_batches_defined args env epoch (len_train_loader env) Ht s)
    as [s1 ->].
  assert (E := end_of_epoch_defined args epoch HL).
  unfold epoch_trace at 1.
  destruct (end_of_epoch args epoch) as [tr2 r2]. cbn [snd fst] in *.
  rewrite E, IH. now rewrite app_assoc.
Qed.

Lemma train_defined args env :
  cuda_is_available env = true ->
  In (backbone args) supported_backbones ->
  total_steps args env <> 0%Z -> log_interval args <> 0%Z ->
  train args env
  = (flat_map (epoch_trace args env) (range 1 (epochs args + 1)), Ok tt).
Proof.
  intros Hc Hb Ht HL. unfold train. rewrite Hc. cbn [negb].
  apply string_in_spec in Hb. rewrite Hb. cbn [negb].
  unfold LambdaLR. destruct (lr_lambda_defined args env 0 Ht) as [f ->].
  cbn [bind]. now apply train_epochs_defined.
Qed.

(** *** File names *)

Lemma append_length (s t : string) :
  String.length (s ++ t) = (String.length s + String.length t)%nat.
Proof. induction s as [|c s IH]; simpl; [reflexivity | now rewrite IH]. Qed.

Lemma append_cancel_l (p s t : string) :
  (p ++ s)%string = (p ++ t)%string -> s = t.
Proof.
  induction p as [|c p IH]; simpl; intros H; [assumption|].
  injection H as H. now apply IH.
Qed.

Lemma append_cancel_r (s t q : string) :
  (s ++ q)%string = (t ++ q)%string -> s = t.
Proof.
  revert t; induction s as [|c s IH]; intros [|d t] H; simpl in H.
  - reflexivity.
  - apply (f_equal String.length) in H. simpl in H.
    rewrite append_length in H. lia.
  - apply (f_equal String.length) in H. simpl in H.
    rewrite append_length in H. lia.
  - injection H as -> H. f_equal. now apply IH.
Qed.

Lemma to_int_not_nil (n : Z) :
  Z.to_int n <> Decimal.Pos Decimal.Nil /\ Z.to_int n <> Decimal.Neg Decimal.Nil.
Proof.
  assert (N : Z.to_int n = Decimal.norm (Z.to_int n))
    by (rewrite <- to_of, of_to; reflexivity).
  split; intros E; rewrite E in N; discriminate N.
Qed.

Lemma str_inj (n m : Z) : str n = str m -> n = m.
Proof.
  unfold str. intros H.
  apply (f_equal NilZero.int_of_string) in H.
  destruct (to_int_not_nil n), (to_int_not_nil m).
  rewrite !NilZero.isi in H by assumption.
  injection H as H. now apply to_int_inj.
Qed.

Lemma checkpoint_name_epoch_inj b e e' :
  checkpoint_name b e = checkpoint_name b e' -> e = e'.
Proof.
  unfold checkpoint_name. intros H.
  do 3 apply append_cancel_l in H.
  apply append_cancel_r in H. now apply str_inj.
Qed.

Lemma checkpoint_name_backbone_inj b b' e :
  checkpoint_name b e = checkpoint_name b' e -> b = b'.
Proof.
  unfold checkpoint_name. intros H.
  apply append_cancel_l in H.
  now apply append_cancel_r in H.
Qed.

(** *** The end of an epoch, the assertions and the division by zero *)

Lemma should_save_true epoch L :
  (1 <= epoch)%Z ->
  should_save epoch L = Ok true <-> (L <= epoch)%Z /\ (L | epoch)%Z.
Proof.
  intros He. unfold should_save.
  destruct (Z.geb_spec epoch L) as [G|G].
  - destruct (Z.eqb_spec L 0) as [->|NZ].
    + split; [discriminate|]. intros [_ [z Hz]]. lia.
    + rewrite <- (Z.mod_divide epoch L NZ).
      destruct (Z.eqb_spec (epoch mod L) 0) as [M|M].
      * split; [intros _; split; [lia | exact M] | reflexivity].
      * split; [intros H; injection H as H; discriminate H | intros [_ M']; contradiction].
  - split; [intros H; injection H as H; discriminate H | intros [G' _]; lia].
Qed.

Lemma end_of_epoch_trace args epoch :
  fst (end_of_epoch args epoch)
  = if match should_save epoch (log_interval args) with
       | Ok b => b
       | Err _ => false
       end
    then [SaveCheckpoint (checkpoint_name (backbone args) epoch)]
    else [].
Proof.
  unfold end_of_epoch.
  destruct (should_save epoch (log_interval args)) as [[|]|]; reflexivity.
Qed.

(** The files written by a whole run that starts and is not interrupted. *)
Lemma saved_files_app tr1 tr2 :
  saved_files (tr1 ++ tr2) = saved_files tr1 ++ saved_files tr2.
Proof. apply flat_map_app. Qed.

Lemma saved_files_steps epoch n :
  saved_files (repeat (OptimizerStep epoch) n) = [].
Proof. induction n; simpl; auto. Qed.

Lemma train_saved_files args env :
  cuda_is_available env = true ->
  In (backbone args) supported_backbones ->
  total_steps args env <> 0%Z -> log_interval args <> 0%Z ->
  saved_files (fst (train args env))
  = map (checkpoint_name (backbone args))
        (filter (saves (log_interval args)) (range 1 (epochs args + 1))).
Proof.
  intros Hc Hb Ht HL. rewrite train_defined by assumption. cbn [fst].
  induction (range 1 (epochs args + 1)) as [|e todo IH]; [reflexivity|].
  cbn [flat_map filter]. rewrite saved_files_app, IH.
  unfold epoch_trace. rewrite saved_files_app, saved_files_steps.
  rewrite end_of_epoch_trace. unfold should_save, saves.
  rewrite Z.geb_leb.
  destruct (log_interval args <=? e)%Z; cbn [andb]; [|reflexivity].
  destruct (Z.eqb_spec (log_interval args) 0); [contradiction|].
  destruct (e mod log_interval args =? 0)%Z; reflexivity.
Qed.

Lemma steps_run_app tr1 tr2 :
  steps_run (tr1 ++ tr2) = (steps_run tr1 + steps_run tr2)%nat.
Proof. unfold steps_run. now rewrite filter_app, length_app. Qed.

Lemma steps_run_steps epoch n : steps_run (repeat (OptimizerStep epoch) n) = n.
Proof.
  unfold steps_run. induction n; simpl; [reflexivity | now rewrite IHn].
Qed.

Lemma steps_run_end_of_epoch args epoch :
  steps_run (fst (end_of_epoch args epoch)) = 0%nat.
Proof.
  rewrite end_of_epoch_trace.
  destruct (match should_save epoch (log_interval args) with
            | Ok b => b | Err _ => false end); reflexivity.
Qed.

Lemma train_steps_run args env :
  cuda_is_available env = true ->
  In (backbone args) supported_backbones ->
  total_steps args env <> 0%Z -> log_interval args <> 0%Z ->
  snd (train args env) = Ok tt /\
  steps_run (fst (train args env))
  = (Z.to_nat (epochs args) * len_train_loader env)%nat.
Proof.
  intros Hc Hb Ht HL. rewrite train_defined by assumption. cbn [fst snd].
  split; [reflexivity|].
  unfold range. replace (epochs args + 1 - 1)%Z with (epochs args) by lia.
  generalize (Z.to_nat (epochs args)) as n. intros n. generalize 0%nat as k.
  induction n as [|n IH]; intros k; [reflexivity|].
  cbn [seq map flat_map]. rewrite steps_run_app, IH.
  unfold epoch_trace.
  rewrite steps_run_app, steps_run_steps, steps_run_end_of_epoch. lia.
Qed.

(** C8: without an accelerator, or with a backbone outside the list of
    supported ones, [train] raises its assertion before any optimizer step;
    with an accelerator and a supported backbone no assertion fails. *)
Theorem train_startup_assertions (args : Args) (env : Env) :
  (cuda_is_available env = false \/ ~ In (backbone args) supported_backbones ->
   train args env = ([], Err AssertionError) /\
   steps_run (fst (train args env)) = 0%nat) /\
  (cuda_is_available env = true -> In (backbone args) supported_backbones ->
   snd (train args env) <> Err AssertionError).
Proof.
  split.
  - intros H.
    assert (E : train args env = ([], Err AssertionError)).
    { unfold train. destruct (cuda_is_available env); cbn [negb]; [|reflexivity].
      destruct H as [H|H]; [discriminate H|].
      destruct (string_in (backbone args) supported_backbones) eqn:S;
        [|reflexivity].
      apply string_in_spec in S. contradiction. }
    rewrite E. split; reflexivity.
  - intros Hc Hb. unfold train. rewrite Hc. cbn [negb].
    apply string_in_spec in Hb. rewrite Hb. cbn [negb].
    destruct (LambdaLR_errors args env) as [s|]; [|simpl; discriminate].
    destruct (train_epochs_errors args env (range 1 (epochs args + 1)) s);
      discriminate.
Qed.

Lemma train_startup_assertions_witness :
  let args := {| backbone := "resnet50"; learning_rate := 0.6;
                 temperature := 0.5; epochs := 2; log_interval := 1 |} in
  let args' := {| backbone := "resnet34"; learning_rate := 0.6;
                  temperature := 0.5; epochs := 2; log_interval := 1 |} in
  let env := {| cuda_is_available := true; len_train_loader := 3 |} in
  train args env = ([], Err AssertionError) /\
  snd (train args' env) <> Err AssertionError.
Proof.
  intros args args' env. split.
  - apply (proj1 (train_startup_assertions args env)). right.
    simpl. intros [H|[H|[]]]; discriminate H.
  - apply (proj2 (train_startup_assertions args' env)).
    + reflexivity.
    + simpl. right. left. reflexivity.
Defined.




(** * Further properties *)

(** ** The paired dataset *)

Section PairExtras.

Context {Image View RNG : Type}.
Variable transform : Image -> RNG -> View * RNG.

Lemma getitem_out_of_range (self : dataset Image) idx g :
  ~ ((idx < length (data self))%nat /\ (idx < length (targets self))%nat) ->
  getitem transform self idx g = Err IndexError.
Proof.
  intros H. unfold getitem.
  destruct (nth_error (data self) idx) as [img|] eqn:Ed; [|reflexivity].
  destruct (nth_error (targets self) idx) as [target|] eqn:Et; [|reflexivity].
  exfalso. apply H. split; apply nth_error_Some; congruence.
Qed.

(** X1: [__getitem__] returns an item exactly for the indices that both the
    images and the labels have; for every other index it raises
    [IndexError]. The label of the item is the stored one. *)
Theorem getitem_defined_iff (self : dataset Image) (idx : nat) (g : RNG) :
  ((exists x y g', getitem transform self idx g = Ok (x, y, g') /\
                   nth_error (targets self) idx = Some y)
   <-> (idx < length (data self))%nat /\ (idx < length (targets self))%nat) /\
  (~ ((idx < length (data self))%nat /\ (idx < length (targets self))%nat) ->
   getitem transform self idx g = Err IndexError).
Proof.
  split; [|apply getitem_out_of_range]. split.
  - intros (x & y & g' & H & _).
    destruct (lt_dec idx (length (data self))) as [Hd|Hd];
      destruct (lt_dec idx (length (targets self))) as [Ht|Ht]; auto;
      rewrite getitem_out_of_range in H by lia; discriminate H.
  - intros [Hd Ht].
    destruct (nth_error (data self) idx) as [img|] eqn:Ed;
      [|apply nth_error_None in Ed; lia].
    destruct (nth_error (targets self) idx) as [target|] eqn:Et;
      [|apply nth_error_None in Et; lia].
    destruct (getitem_in_range transform self idx g img target Ed Et)
      as (x & g' & H & _).
    exists x, target, g'. auto.
Qed.

Lemma fetch_labels (self : dataset Image) idxs :
  forall g items g',
    fetch transform self idxs g = Ok (items, g') ->
    map (fun y => Some y) (map snd items)
    = map (nth_error (targets self)) idxs.
Proof.
  induction idxs as [|idx rest IH]; intros g items g' H; cbn [fetch] in H.
  - injection H as <- _. reflexivity.
  - unfold getitem in H.
    destruct (nth_error (data self) idx) as [img|]; [|discriminate H].
    destruct (nth_error (targets self) idx) as [target|] eqn:Et;
      [|discriminate H].
    destruct (transform img g) as [v0 g0].
    destruct (transform img g0) as [v1 g1]. cbn [bind] in H.
    destruct (fetch transform self rest g1) as [[items' g2]|e] eqn:F;
      [|discriminate H].
    cbn [bind] in H. injection H as <- _.
    cbn [map snd]. rewrite Et. f_equal. apply (IH g1 items' g2 F).
Qed.

(** X2: The labels pass through the loader untouched: a batch over in-range
    indices loads, and its k-th label is the stored label of the k-th
    sampled index. *)
Theorem load_batch_labels (self : dataset Image) (idxs : list nat) (g : RNG) :
  (forall idx, In idx idxs ->
     (idx < length (data self))%nat /\ (idx < length (targets self))%nat) ->
  exists x y g',
    load_batch transform self idxs g = Ok (x, y, g') /\
    length y = length idxs /\
    forall k idx, nth_error idxs k = Some idx ->
      nth_error y k = nth_error (targets self) idx /\ nth_error y k <> None.
Proof.
  intros Hin.
  destruct (fetch_in_range transform self idxs Hin g)
    as (items & g' & Hf & Hlen & _).
  assert (L := fetch_labels self idxs g items g' Hf).
  exists (fst (collate items)), (map snd items), g'.
  split; [unfold load_batch; rewrite Hf; reflexivity|].
  split; [now rewrite length_map|].
  intros k idx Hk.
  assert (E : nth_error (map (fun y => Some y) (map snd items)) k
              = Some (nth_error (targets self) idx))
    by (rewrite L, nth_error_map, Hk; reflexivity).
  rewrite nth_error_map in E.
  destruct (nth_error (map snd items) k) as [y|]; [|discriminate E].
  injection E as E. split; [exact E | discriminate].
Qed.

(** X3: One index outside the dataset makes the whole batch fail with
    [IndexError]. *)
Theorem load_batch_out_of_range (self : dataset Image) (idxs : list nat)
  (g : RNG) (bad : nat) :
  In bad idxs ->
  ~ ((bad < length (data self))%nat /\ (bad < length (targets self))%nat) ->
  load_batch transform self idxs g = Err IndexError.
Proof.
  intros Hin Hbad. unfold load_batch.
  assert (F : fetch transform self idxs g = Err IndexError).
  { revert g. induction idxs as [|idx rest IH]; intros g; [contradiction|].
    cbn [fetch].
    destruct (getitem transform self idx g) as [[[x y] g1]|e] eqn:G.
    - cbn [bind]. destruct Hin as [->|Hin].
      + rewrite getitem_out_of_range in G by assumption. discriminate G.
      + rewrite (IH Hin g1). reflexivity.
    - cbn [bind]. unfold getitem in G.
      destruct (nth_error (data self) idx); [|congruence].
      destruct (nth_error (targets self) idx); [|congruence].
      destruct (transform _ g) as [v0 g0].
      destruct (transform _ g0) as [v1 g1]. discriminate G. }
  rewrite F. reflexivity.
Qed.

End PairExtras.

Lemma getitem_defined_iff_witness :
  let transform := fun (img : nat) (g : nat) => ((img, g), S g) in
  let self := {| data := [10; 11; 12; 13]%nat; targets := [5; 6; 7; 8]%Z |} in
  (exists x y g', getitem transform self 1 0%nat = Ok (x, y, g') /\
                  nth_error (targets self) 1 = Some y) /\
  getitem transform self 4 0%nat = Err IndexError.
Proof.
  intros transform self. split.
  - apply (proj1 (getitem_defined_iff transform self 1 0%nat)). simpl; lia.
  - apply (proj2 (getitem_defined_iff transform self 4 0%nat)). simpl; lia.
Defined.

Lemma load_batch_labels_witness :
  let transform := fun (img : nat) (g : nat) => ((img, g), S g) in
  let self := {| data := [10; 11; 12; 13]%nat; targets := [5; 6; 7; 8]%Z |} in
  exists x y g',
    load_batch transform self [2; 0; 3]%nat 0%nat = Ok (x, y, g') /\
    y = [7; 5; 8]%Z.
Proof.
  intros transform self.
  destruct (load_batch_labels transform self [2; 0; 3]%nat 0%nat)
    as (x & y & g' & Hload & _ & _).
  - simpl; intros idx [<-|[<-|[<-|[]]]]; lia.
  - exists x, y, g'. split; [exact Hload|].
    cbv in Hload. injection Hload as _ <- _. reflexivity.
Defined.

Lemma load_batch_out_of_range_witness :
  let transform := fun (img : nat) (g : nat) => ((img, g), S g) in
  let self := {| data := [10; 11; 12; 13]%nat; targets := [5; 6; 7; 8]%Z |} in
  load_batch transform self [2; 4; 3]%nat 0%nat = Err IndexError.
Proof.
  intros transform self.
  apply (load_batch_out_of_range transform self [2; 4; 3]%nat 0%nat 4%nat).
  - simpl; auto.
  - simpl; lia.
Defined.

(** ** The target vector, further *)

Lemma even_succ_false i : Nat.even i = true -> Nat.even (i + 1) = false.
Proof.
  intros E. rewrite Nat.add_1_r, Nat.even_succ, <- Nat.negb_even, E.
  reflexivity.
Qed.

Lemma even_pred_true i : Nat.even i = false -> Nat.even (i - 1) = true.
Proof.
  intros E. destruct i as [|i]; [discriminate E|].
  rewrite Nat.even_succ in E. replace (S i - 1)%nat with i by lia.
  rewrite <- Nat.negb_odd, E. reflexivity.
Qed.

(** X4: On an even number of rows the targets pair the rows up: the target of
    a row is another row of the same pair (never the row itself), it is a
    valid class index, and the target of that row is the first row
    again. *)
Theorem targets_involution (N i : nat) :
  (i < 2 * N)%nat ->
  exists j : nat,
    nth_error (Loss.targets (2 * N)) i = Some (Z.of_nat j) /\
    j <> i /\ (j < 2 * N)%nat /\ (j / 2 = i / 2)%nat /\
    nth_error (Loss.targets (2 * N)) j = Some (Z.of_nat i).
Proof.
  intros Hi. destruct (Nat.even i) eqn:E.
  - exists (i + 1)%nat.
    assert (Hj : (i + 1 < 2 * N)%nat).
    { apply Nat.even_spec in E. destruct E as [m ->]. lia. }
    rewrite !targets_nth by assumption.
    rewrite E, (even_succ_false i E).
    split; [f_equal; lia|]. split; [lia|]. split; [exact Hj|].
    split; [|f_equal; lia].
    apply Nat.even_spec in E. destruct E as [m ->].
    replace (2 * m + 1)%nat with (1 + m * 2)%nat by lia.
    rewrite Nat.div_add by lia. rewrite (Nat.mul_comm 2 m), Nat.div_mul by lia.
    reflexivity.
  - exists (i - 1)%nat.
    assert (Hpos : (1 <= i)%nat) by (destruct i; [discriminate E | lia]).
    rewrite !targets_nth by lia.
    rewrite E, (even_pred_true i E).
    split; [f_equal; lia|]. split; [lia|]. split; [lia|].
    split; [|f_equal; lia].
    assert (O : Nat.odd i = true) by (rewrite <- Nat.negb_even, E; reflexivity).
    apply Nat.odd_spec in O. destruct O as [m ->].
    replace (2 * m + 1 - 1)%nat with (m * 2)%nat by lia.
    replace (2 * m + 1)%nat with (1 + m * 2)%nat by lia.
    rewrite Nat.div_add, Nat.div_mul by lia. reflexivity.
Qed.

Lemma targets_involution_witness :
  exists j : nat,
    nth_error (Loss.targets (2 * 3)) 4 = Some (Z.of_nat j) /\
    j <> 4%nat /\
    nth_error (Loss.targets (2 * 3)) j = Some 4%Z.
Proof.
  destruct (targets_involution 3 4) as (j & H0 & Hne & _ & _ & H1); [lia|].
  exists j. auto.
Defined.

(** On an odd number of rows the last target is the number of rows, which
    is no class index. *)
Lemma targets_odd_last n :
  Nat.odd n = true ->
  nth_error (Loss.targets n) (n - 1) = Some (Z.of_nat n).
Proof.
  intros O. assert (Hn : (1 <= n)%nat) by (destruct n; [discriminate O | lia]).
  rewrite targets_nth by lia.
  replace (Nat.even (n - 1)) with true.
  - f_equal. lia.
  - destruct n as [|n]; [lia|]. replace (S n - 1)%nat with n by lia.
    rewrite Nat.odd_succ in O. now rewrite O.
Qed.

(** ** The score matrix, further *)

Section ScoreExtras.

Import Loss.
Local Open Scope R_scope.



Lemma dot_comm u v : dot u v = dot v u.
Proof.
  revert v; induction u as [|a u IH]; intros [|b v];
    try reflexivity.
  rewrite !dot_cons, IH. ring.
Qed.

Lemma nth_error_lt {A : Type} (l : list A) i :
  (i < length l)%nat -> exists a, nth_error l i = Some a.
Proof.
  intros H. destruct (nth_error l i) as [a|] eqn:E; [now exists a|].
  apply nth_error_None in E. lia.
Qed.

(** X5: The scores are symmetric, and so are the scaled scores and the masked
    ones. *)
Theorem scores_symmetric (x : matrix) (t : R) (i j : nat) :
  (i < length x)%nat -> (j < length x)%nat ->
  exists s m,
    entry (x_scores x) i j = Some s /\ entry (x_scores x) j i = Some s /\
    entry (x_scale x t) i j = Some (s / t) /\
    entry (x_scale x t) j i = Some (s / t) /\
    entry (x_scale_masked x t) i j = Some m /\
    entry (x_scale_masked x t) j i = Some m.
Proof.
  intros Hi Hj.
  destruct (nth_error_lt x i Hi) as [ri Ei].
  destruct (nth_error_lt x j Hj) as [rj Ej].
  assert (Sij := entry_x_scores x i j ri rj Ei Ej).
  assert (Sji := entry_x_scores x j i rj ri Ej Ei).
  assert (Tij := entry_x_scale x t i j ri rj Ei Ej).
  assert (Tji := entry_x_scale x t j i rj ri Ej Ei).
  rewrite (dot_comm (normalize_row rj)) in Sji, Tji.
  assert (Mij := entry_x_scale_masked x t i j _ Tij).
  assert (Mji := entry_x_scale_masked x t j i _ Tji).
  rewrite (Nat.eqb_sym j i) in Mji.
  eexists; eexists. repeat split; eassumption.
Qed.

Lemma scores_symmetric_witness :
  exists s m,
    entry (x_scores [[1; 2]; [3; -1]; [0; 5]]) 0 2 = Some s /\
    entry (x_scores [[1; 2]; [3; -1]; [0; 5]]) 2 0 = Some s /\
    entry (x_scale_masked [[1; 2]; [3; -1]; [0; 5]] 0.5) 0 2 = Some m /\
    entry (x_scale_masked [[1; 2]; [3; -1]; [0; 5]] 0.5) 2 0 = Some m.
Proof.
  destruct (scores_symmetric [[1; 2]; [3; -1]; [0; 5]] 0.5 0 2)
    as (s & m & H1 & H2 & _ & _ & H3 & H4); [simpl; lia | simpl; lia |].
  exists s, m. auto.
Defined.

(** *** Cosine similarities are at most 1 *)






(** *** A row of zeros *)

Lemma dot_zero_l u v : Forall (fun a => a = 0) u -> dot u v = 0.
Proof.
  intros H. revert v; induction H as [|a u Ha _ IH]; intros [|b v];
    try reflexivity.
  rewrite dot_cons, IH, Ha. ring.
Qed.

Lemma map_div_zero d u :
  Forall (fun a => a = 0) u -> map (fun a => a / d) u = u.
Proof.
  intros H. induction H as [|a u Ha _ IH]; [reflexivity|].
  cbn [map]. rewrite IH. f_equal. subst a. unfold Rdiv. ring.
Qed.

(** X7: A row of zeros is not divided by zero: it stays as it is, and its
    score with every row, itself included, is the floor 1e-7. *)
Theorem zero_row_scores (x : matrix) (i j : nat) (ri rj : list R) :
  nth_error x i = Some ri -> nth_error x j = Some rj ->
  Forall (fun a => a = 0) ri ->
  normalize_row ri = ri /\
  entry (x_scores x) i j = Some 1e-7 /\
  entry (x_scores x) j i = Some 1e-7.
Proof.
  intros Ei Ej Hz.
  assert (N : normalize_row ri = ri) by (apply map_div_zero, Hz).
  split; [exact N|].
  rewrite (entry_x_scores x i j ri rj Ei Ej), (entry_x_scores x j i rj ri Ej Ei).
  rewrite (dot_comm (normalize_row rj)), N, (dot_zero_l ri _ Hz).
  rewrite Rmax_right by lra. auto.
Qed.

Lemma zero_row_scores_witness :
  entry (x_scores [[0; 0]; [3; 4]]) 0 0 = Some 1e-7 /\
  entry (x_scores [[0; 0]; [3; 4]]) 0 1 = Some 1e-7.
Proof.
  split.
  - apply (zero_row_scores [[0; 0]; [3; 4]] 0 0 [0; 0] [0; 0] eq_refl eq_refl).
    repeat constructor.
  - apply (zero_row_scores [[0; 0]; [3; 4]] 0 1 [0; 0] [3; 4] eq_refl eq_refl).
    repeat constructor.
Defined.

(** *** When the loss is defined, and its sign *)

Lemma nll_errors row target e : nll row target = Err e -> e = IndexError.
Proof.
  unfold nll.
  destruct ((0 <=? target)%Z && (target <? Z.of_nat (length row))%Z);
    [|congruence].
  destruct (nth_error (softmax row) (Z.to_nat target)); congruence.
Qed.

Lemma nll_out_of_range row target :
  ~ (0 <= target < Z.of_nat (length row))%Z ->
  nll row target = Err IndexError.
Proof.
  intros H. unfold nll.
  destruct (Z.leb_spec 0 target), (Z.ltb_spec target (Z.of_nat (length row)));
    cbn [andb]; try reflexivity.
  exfalso. apply H. lia.
Qed.

Lemma nll_rows_out_of_range logits tgts k row target :
  nth_error logits k = Some row -> nth_error tgts k = Some target ->
  ~ (0 <= target < Z.of_nat (length row))%Z ->
  nll_rows logits tgts = Err IndexError.
Proof.
  revert tgts k; induction logits as [|r0 logits IH]; intros tgts k Hr Ht Hbad.
  - destruct k; discriminate Hr.
  - destruct tgts as [|t0 tgts]; [destruct k; discriminate Ht|].
    cbn [nll_rows]. destruct k as [|k]; simpl in Hr, Ht.
    + injection Hr as ->. injection Ht as ->.
      now rewrite nll_out_of_range.
    + destruct (nll r0 t0) as [l|e] eqn:E; cbn [bind].
      * now rewrite (IH tgts k Hr Ht Hbad).
      * now rewrite (nll_errors _ _ _ E).
Qed.

(** X9: On an odd number of rows the loss raises: the last row has no
    partner and its target is out of range. *)
Theorem nt_xent_odd_rows (x : matrix) (t : R) :
  Nat.odd (length x) = true -> nt_xent x t = Err IndexError.
Proof.
  intros O. unfold nt_xent, cross_entropy.
  assert (Hn : (1 <= length x)%nat) by (destruct x; [discriminate O | simpl; lia]).
  destruct (square_x_scale_masked x t) as [L Hrows].
  destruct (nth_error_lt (x_scale_masked x t) (length x - 1)) as [row Hrow];
    [lia|].
  rewrite (nll_rows_out_of_range _ _ (length x - 1) row (Z.of_nat (length x))
             Hrow (targets_odd_last _ O)).
  - reflexivity.
  - rewrite (Hrows row) by (eapply nth_error_In; eassumption). lia.
Qed.

Lemma nt_xent_odd_rows_witness :
  nt_xent [[1; 0]; [0; 1]; [1; 1]] 0.5 = Err IndexError.
Proof. apply nt_xent_odd_rows. reflexivity. Defined.

Lemma softmax_prob_bounds row k p :
  nth_error (softmax row) k = Some p -> 0 < p <= 1.
Proof.
  rewrite nth_error_softmax.
  destruct (nth_error row k) as [v|] eqn:E; [|discriminate].
  cbn [option_map]. intros H. injection H as <-.
  assert (P := exp_pos v). assert (G := sum_exp_ge row k v E).
  split.
  - apply Rdiv_lt_0_compat; lra.
  - apply Rmult_le_reg_r with (sum (map exp row)); [lra|].
    unfold Rdiv. rewrite Rmult_assoc, Rinv_l by lra. lra.
Qed.

Lemma ln_nonpos p : 0 < p <= 1 -> ln p <= 0.
Proof.
  intros [H0 [H1| ->]].
  - rewrite <- ln_1. left. now apply ln_increasing.
  - rewrite ln_1. lra.
Qed.

Lemma nll_nonneg row target l : nll row target = Ok l -> 0 <= l.
Proof.
  unfold nll.
  destruct ((0 <=? target)%Z && (target <? Z.of_nat (length row))%Z);
    [|discriminate].
  destruct (nth_error (softmax row) (Z.to_nat target)) as [p|] eqn:E;
    [|discriminate].
  intros H. injection H as <-.
  assert (B := ln_nonpos p (softmax_prob_bounds _ _ _ E)). lra.
Qed.

Lemma nll_rows_nonneg logits tgts ls :
  nll_rows logits tgts = Ok ls -> 0 <= sum ls.
Proof.
  revert tgts ls; induction logits as [|row logits IH]; intros tgts ls H.
  - injection H as <-. unfold sum; simpl; lra.
  - destruct tgts as [|target tgts];
      [injection H as <-; unfold sum; simpl; lra|].
    cbn [nll_rows] in H.
    destruct (nll row target) as [l|] eqn:E; [|discriminate H].
    cbn [bind] in H.
    destruct (nll_rows logits tgts) as [ls'|] eqn:E'; [|discriminate H].
    cbn [bind] in H. injection H as <-.
    assert (A := nll_nonneg _ _ _ E). assert (B := IH _ _ E').
    unfold sum in *. simpl. lra.
Qed.

(** X10: on 2N rows, N >= 1, and for a temperature t >= 1e-4 the loss is
    defined and it is not negative. *)
Theorem nt_xent_nonneg (x : matrix) (t : R) (N : nat) :
  (1 <= N)%nat -> length x = (2 * N)%nat -> 1e-4 <= t ->
  exists loss, nt_xent x t = Ok loss /\ 0 <= loss.
Proof.
  intros HN Hlen _. destruct (nt_xent_defined x t N Hlen) as [loss H].
  exists loss. split; [exact H|].
  unfold nt_xent, cross_entropy in H.
  destruct (nll_rows (x_scale_masked x t) (targets (length x))) as [ls|] eqn:E;
    [|discriminate H].
  cbn [bind] in H. injection H as <-.
  destruct (square_x_scale_masked x t) as [L _]. rewrite L, Hlen.
  assert (S := nll_rows_nonneg _ _ _ E).
  assert (I : 0 < INR (2 * N)) by (apply lt_0_INR; lia).
  apply Rmult_le_pos; [exact S | left; now apply Rinv_0_lt_compat].
Qed.

Lemma nt_xent_nonneg_witness :
  exists loss,
    nt_xent [[1; 0]; [0; 1]; [1; 1]; [1; -1]] 0.5 = Ok loss /\ 0 <= loss.
Proof.
  apply (nt_xent_nonneg [[1; 0]; [0; 1]; [1; 1]; [1; -1]] 0.5 2);
    [lia | reflexivity | lra].
Defined.

(** *** A batch of one pair *)

Lemma ln_one_plus_lt y : 0 < y -> ln (1 + y) < y.
Proof.
  intros Hy. rewrite <- (ln_exp y) at 2.
  apply ln_increasing; [lra | apply exp_ineq1; lra].
Qed.

Lemma neg_ln_ratio ea eb :
  0 < ea -> 1 <= eb -> 0 <= - ln (eb / (ea + eb)) < ea.
Proof.
  intros Ha Hb.
  assert (Hy : 0 < ea / eb) by (apply Rdiv_lt_0_compat; lra).
  assert (E : eb / (ea + eb) = / (1 + ea / eb)) by (field; lra).
  rewrite E, ln_Rinv by lra. rewrite Ropp_involutive.
  assert (L := ln_one_plus_lt _ Hy).
  assert (Q : ea / eb <= ea).
  { apply Rmult_le_reg_r with eb; [lra|].
    unfold Rdiv. rewrite Rmult_assoc, Rinv_l by lra. nra. }
  split; [|lra].
  rewrite <- ln_1. left. apply ln_increasing; lra.
Qed.

Lemma exp_small a : a <= 10000 - 1e5 -> exp a < 1e-4.
Proof.
  intros H. apply Rle_lt_trans with (exp (10000 - 1e5));
    [now apply exp_le | apply exp_minus_90000].
Qed.

Lemma exp_ge_1 b : 0 <= b -> 1 <= exp b.
Proof. intros H. rewrite <- exp_0. now apply exp_le. Qed.

(** X11: With a single pair each row has its partner and its own masked entry
    only: for t >= 1e-4 the loss is defined and lies in [0, 1e-4),
    whatever the two representations are. *)
Theorem nt_xent_single_pair (x : matrix) (t : R) :
  length x = 2%nat -> 1e-4 <= t ->
  exists loss, nt_xent x t = Ok loss /\ 0 <= loss < 1e-4.
Proof.
  intros Hlen Ht.
  destruct x as [|r0 [|r1 [|r2 x]]]; try discriminate Hlen.
  set (x := [r0; r1]) in *.
  assert (T0 : 0 < t) by lra.
  assert (I : 1 / t <= 10000) by now apply inv_le_10000.
  (* the four entries of the masked matrix *)
  assert (S00 := entry_x_scale x t 0 0 r0 r0 eq_refl eq_refl).
  assert (S01 := entry_x_scale x t 0 1 r0 r1 eq_refl eq_refl).
  assert (S10 := entry_x_scale x t 1 0 r1 r0 eq_refl eq_refl).
  assert (S11 := entry_x_scale x t 1 1 r1 r1 eq_refl eq_refl).
  assert (M00 := entry_x_scale_masked x t 0 0 _ S00).
  assert (M01 := entry_x_scale_masked x t 0 1 _ S01).
  assert (M10 := entry_x_scale_masked x t 1 0 _ S10).
  assert (M11 := entry_x_scale_masked x t 1 1 _ S11).
  cbn [Nat.eqb] in M00, M01, M10, M11.
  set (s00 := Rmax (dot (normalize_row r0) (normalize_row r0)) 1e-7) in *.
  set (s01 := Rmax (dot (normalize_row r0) (normalize_row r1)) 1e-7) in *.
  set (s10 := Rmax (dot (normalize_row r1) (normalize_row r0)) 1e-7) in *.
  set (s11 := Rmax (dot (normalize_row r1) (normalize_row r1)) 1e-7) in *.
  assert (B00 : s00 / t - 1 * 1e5 <= 10000 - 1e5).
  { assert (s00 / t <= 1 / t); [|lra]. apply div_le_inv; [exact T0|].
    apply Rmax_lub; [apply self_similarity_le_1 | lra]. }
  assert (B11 : s11 / t - 1 * 1e5 <= 10000 - 1e5).
  { assert (s11 / t <= 1 / t); [|lra]. apply div_le_inv; [exact T0|].
    apply Rmax_lub; [apply self_similarity_le_1 | lra]. }
  assert (B01 : 0 <= s01 / t - 0 * 1e5).
  { assert (1e-7 <= s01) by apply Rmax_r.
    assert (0 < s01 / t) by (apply Rdiv_lt_0_compat; lra). lra. }
  assert (B10 : 0 <= s10 / t - 0 * 1e5).
  { assert (1e-7 <= s10) by apply Rmax_r.
    assert (0 < s10 / t) by (apply Rdiv_lt_0_compat; lra). lra. }
  (* the matrix itself *)
  destruct (square_x_scale_masked x t) as [L Hrows].
  destruct (x_scale_masked x t) as [|row0 [|row1 [|row2 m]]] eqn:EM;
    try discriminate L.
  assert (L0 : length row0 = 2%nat) by (apply Hrows; simpl; auto).
  assert (L1 : length row1 = 2%nat) by (apply Hrows; simpl; auto).
  destruct row0 as [|m00 [|m01 [|? ?]]]; try discriminate L0.
  destruct row1 as [|m10 [|m11 [|? ?]]]; try discriminate L1.
  cbn [entry nth_error] in M00, M01, M10, M11.
  injection M00 as ->. injection M01 as ->.
  injection M10 as ->. injection M11 as ->.
  set (a0 := s00 / t - 1 * 1e5) in *. set (b0 := s01 / t - 0 * 1e5) in *.
  set (b1 := s10 / t - 0 * 1e5) in *. set (a1 := s11 / t - 1 * 1e5) in *.
  (* the two row losses *)
  destruct (neg_ln_ratio (exp a0) (exp b0) (exp_pos a0) (exp_ge_1 b0 B01))
    as [P0 Q0].
  destruct (neg_ln_ratio (exp a1) (exp b1) (exp_pos a1) (exp_ge_1 b1 B10))
    as [P1 Q1].
  assert (E0 := exp_small a0 B00). assert (E1 := exp_small a1 B11).
  unfold nt_xent, cross_entropy. rewrite EM.
  change (targets (length x)) with [1%Z; 0%Z].
  cbn [nll_rows nll length Z.of_nat Pos.of_succ_nat Pos.succ Z.leb Z.ltb
       Z.compare Pos.compare Pos.compare_cont andb Z.to_nat Pos.to_nat
       Pos.iter_op Nat.add softmax map nth_error bind].
  eexists. split; [reflexivity|].
  unfold sum. cbn [fold_right map INR].
  replace (exp a0 + (exp b0 + 0)) with (exp a0 + exp b0) by ring.
  replace (exp b1 + (exp a1 + 0)) with (exp a1 + exp b1) by ring.
  lra.
Qed.

Lemma nt_xent_single_pair_witness :
  exists loss, nt_xent [[3; 4]; [-2; 7]] 0.5 = Ok loss /\ 0 <= loss < 1e-4.
Proof. apply nt_xent_single_pair; [reflexivity | lra]. Defined.

End ScoreExtras.

(** ** The cosine schedule, further *)

Section ScheduleExtras.

Local Open Scope R_scope.

(** X12: the factor never falls below the floor: for rates
    0 <= lr_min <= lr_max, every non-zero [total_steps] and every step
    whose quotient by [total_steps] is a float, [get_lr] returns a value
    that is at least [lr_min]. *)
Theorem get_lr_floor (step total : Z) (lr_max lr_min : R) :
  total <> 0%Z -> (Z.abs step <= 10 ^ 300)%Z ->
  0 <= lr_min -> lr_min <= lr_max -> lr_max <= 1e100 ->
  exists v, get_lr step total lr_max lr_min = Ok v /\ lr_min <= v.
Proof.
  intros Ht _ _ Hlr _. rewrite get_lr_defined by assumption.
  eexists; split; [reflexivity|]. unfold spec_lr.
  destruct (COS_bound (IZR step / IZR total * PI)) as [Lo Hi]. nra.
Qed.

Lemma get_lr_floor_witness :
  exists v, get_lr 17 12 0.6 1e-3 = Ok v /\ 1e-3 <= v.
Proof. apply get_lr_floor; try lia; lra. Defined.



End ScheduleExtras.

(** ** The run of [train], further *)

Lemma range_In lo hi e : In e (range lo hi) <-> (lo <= e < hi)%Z.
Proof.
  unfold range. rewrite in_map_iff. split.
  - intros (i & <- & Hi). apply in_seq in Hi. lia.
  - intros H. exists (Z.to_nat (e - lo)). split; [lia|].
    apply in_seq. lia.
Qed.

Lemma range_NoDup lo hi : NoDup (range lo hi).
Proof.
  unfold range. apply NoDup_map_NoDup_ForallPairs; [|apply seq_NoDup].
  intros i j _ _ H. lia.
Qed.

Lemma saves_true L e :
  L <> 0%Z -> saves L e = true <-> (L <= e)%Z /\ (L | e)%Z.
Proof.
  intros HL. unfold saves.
  rewrite andb_true_iff, Z.leb_le, Z.eqb_eq, (Z.mod_divide e L HL).
  reflexivity.
Qed.

(** *** What the training loop saves *)

Lemma In_saved_files file tr :
  In (SaveCheckpoint file) tr <-> In file (saved_files tr).
Proof.
  unfold saved_files. rewrite in_flat_map. split.
  - intros H. exists (SaveCheckpoint file). split; [exact H | now left].
  - intros ([epoch|f] & Hin & Hf); [contradiction|].
    destruct Hf as [->|[]]. exact Hin.
Qed.

Lemma train_batches_saved lam epoch n :
  forall s, saved_files (fst (train_batches lam epoch n s)) = [].
Proof.
  induction n as [|n IH]; intros s; cbn [train_batches]; [reflexivity|].
  destruct (scheduler_step lam s) as [s'|e]; [|reflexivity].
  specialize (IH s'). destruct (train_batches lam epoch n s') as [tr r].
  exact IH.
Qed.

(** With a log interval of zero no epoch gets as far as saving. *)
Lemma train_saves_nothing_at_zero args env :
  log_interval args = 0%Z -> saved_files (fst (train args env)) = [].
Proof.
  intros HL.
  assert (E : forall epoch, fst (end_of_epoch args epoch) = []).
  { intros epoch. unfold end_of_epoch, should_save. rewrite HL.
    destruct (epoch >=? 0)%Z; reflexivity. }
  assert (T : forall todo s,
             saved_files (fst (train_epochs args env todo s)) = []).
  { induction todo as [|epoch todo IH]; intros s; cbn [train_epochs];
      [reflexivity|].
    assert (B := train_batches_saved (lr_lambda args env) epoch
                   (len_train_loader env) s).
    destruct (train_batches (lr_lambda args env) epoch (len_train_loader env) s)
      as [tr1 [s1|e1]]; cbn [fst] in B; [|exact B].
    specialize (E epoch).
    destruct (end_of_epoch args epoch) as [tr2 [u|e2]]; cbn [fst] in E; subst tr2.
    - specialize (IH s1).
      destruct (train_epochs args env todo s1) as [tr3 r].
      cbn [fst app] in *. now rewrite saved_files_app, B, IH.
    - cbn [fst]. rewrite saved_files_app, B. reflexivity. }
  unfold train.
  destruct (negb (cuda_is_available env)); [reflexivity|].
  destruct (negb (string_in (backbone args) supported_backbones));
    [reflexivity|].
  destruct (LambdaLR (lr_lambda args env)) as [s|e]; [apply T | reflexivity].
Qed.

Lemma range_length lo hi : length (range lo hi) = Z.to_nat (hi - lo).
Proof. unfold range. now rewrite length_map, length_seq. Qed.

Lemma map_seq_from {A : Type} (f : nat -> A) n :
  forall a, map f (seq a n) = map (fun i => f (a + i)%nat) (seq 0 n).
Proof.
  induction n as [|n IH]; intros a; [reflexivity|].
  cbn [seq map]. rewrite Nat.add_0_r. f_equal.
  rewrite (IH (S a)), <- (seq_shift n 0), map_map.
  apply map_ext. intros i. f_equal. lia.
Qed.

Lemma range_split lo m hi :
  (lo <= m <= hi)%Z -> range lo hi = range lo m ++ range m hi.
Proof.
  intros H. unfold range.
  replace (Z.to_nat (hi - lo))
    with (Z.to_nat (m - lo) + Z.to_nat (hi - m))%nat by lia.
  rewrite seq_app, map_app. f_equal.
  rewrite map_seq_from. apply map_ext. intros i. lia.
Qed.

Lemma range_first lo hi :
  (lo < hi)%Z -> range lo hi = lo :: range (lo + 1) hi.
Proof.
  intros H. rewrite (range_split lo (lo + 1) hi) by lia.
  unfold range at 1. replace (Z.to_nat (lo + 1 - lo)) with 1%nat by lia.
  cbn [seq map app]. f_equal. lia.
Qed.

Lemma steps_run_epochs args env todo :
  steps_run (flat_map (epoch_trace args env) todo)
  = (length todo * len_train_loader env)%nat.
Proof.
  induction todo as [|e todo IH]; [reflexivity|].
  cbn [flat_map length]. rewrite steps_run_app, IH. unfold epoch_trace.
  rewrite steps_run_app, steps_run_steps, steps_run_end_of_epoch. lia.
Qed.

(** C7: in a run of the training loop that reaches epoch e (1 <= e <=
    epochs), the checkpoint of epoch e is written exactly when
    e >= log_interval and e is a multiple of log_interval, and then it
    is written after the e x len(train_loader) optimizer steps of the
    epochs up to e; every file written is named
    simclr_<backbone>_epoch<e'>.pt for such an epoch e', a name from
    which the epoch and the backbone can be read back. *)
Theorem train_checkpoint_rule (args : Args) (env : Env) (e : Z) :
  cuda_is_available env = true ->
  In (backbone args) supported_backbones ->
  total_steps args env <> 0%Z ->
  (1 <= e <= epochs args)%Z ->
  (In (SaveCheckpoint (checkpoint_name (backbone args) e)) (fst (train args env))
   <-> (log_interval args <= e)%Z /\ (log_interval args | e)%Z) /\
  ((log_interval args <= e)%Z /\ (log_interval args | e)%Z ->
   exists before after,
     fst (train args env)
     = before ++ SaveCheckpoint (checkpoint_name (backbone args) e) :: after /\
     steps_run before = (Z.to_nat e * len_train_loader env)%nat) /\
  (forall file,
      In (SaveCheckpoint file) (fst (train args env)) ->
      exists e', (1 <= e' <= epochs args)%Z /\
                 (log_interval args <= e')%Z /\ (log_interval args | e')%Z /\
                 file = ("simclr_" ++ backbone args ++ "_epoch" ++ str e'
                         ++ ".pt")%string) /\
  (forall e', checkpoint_name (backbone args) e
              = checkpoint_name (backbone args) e' -> e = e') /\
  (forall b', checkpoint_name (backbone args) e
              = checkpoint_name b' e -> backbone args = b') /\
  checkpoint_name "resnet18" 100 = "simclr_resnet18_epoch100.pt"%string.
Proof.
  intros Hc Hb Ht He.
  assert (Hsaved : forall file,
             In (SaveCheckpoint file) (fst (train args env)) <->
             exists e', (1 <= e' <= epochs args)%Z /\
                        (log_interval args <= e')%Z /\
                        (log_interval args | e')%Z /\
                        file = checkpoint_name (backbone args) e').
  { intros file. rewrite In_saved_files.
    destruct (Z.eq_dec (log_interval args) 0) as [HL|HL].
    - rewrite train_saves_nothing_at_zero by assumption. split; [intros []|].
      intros (e' & He' & _ & [z Hz] & _). rewrite HL in Hz. lia.
    - rewrite train_saved_files by assumption. rewrite in_map_iff. split.
      + intros (e' & <- & H). apply filter_In in H. destruct H as [Hr Hs].
        apply range_In in Hr. apply (saves_true _ _ HL) in Hs.
        exists e'. repeat split; try tauto; lia.
      + intros (e' & Hr & HLe & Hd & ->). exists e'. split; [reflexivity|].
        apply filter_In. split; [apply range_In; lia|].
        apply (saves_true _ _ HL). auto. }
  split; [|split; [|split; [|split; [|split]]]].
  - rewrite Hsaved. split.
    + intros (e' & _ & HLe & Hd & Hn).
      apply checkpoint_name_epoch_inj in Hn. subst e'. auto.
    + intros [HLe Hd]. exists e. auto.
  - intros [HLe [z Hz]].
    assert (HL : log_interval args <> 0%Z) by lia.
    rewrite train_defined by assumption. cbn [fst].
    rewrite (range_split 1 e (epochs args + 1)) by lia.
    rewrite (range_first e (epochs args + 1)) by lia.
    rewrite flat_map_app. cbn [flat_map]. unfold epoch_trace at 2.
    rewrite end_of_epoch_trace.
    replace (should_save e (log_interval args)) with (@Ok bool true).
    2:{ symmetry. apply should_save_true; [lia|]. split; [lia | now exists z]. }
    exists (flat_map (epoch_trace args env) (range 1 e)
            ++ repeat (OptimizerStep e) (len_train_loader env)),
           (flat_map (epoch_trace args env) (range (e + 1) (epochs args + 1))).
    split; [now rewrite <- !app_assoc|].
    rewrite steps_run_app, steps_run_epochs, steps_run_steps, range_length.
    replace (Z.to_nat e) with (S (Z.to_nat (e - 1))) by lia.
    cbn [Nat.mul]. lia.
  - intros file H. apply Hsaved in H. exact H.
  - intros e'. apply checkpoint_name_epoch_inj.
  - intros b'. apply checkpoint_name_backbone_inj.
  - reflexivity.
Qed.

Lemma train_checkpoint_rule_witness :
  let args := {| backbone := "resnet18"; learning_rate := 0.6;
                 temperature := 0.5; epochs := 1000; log_interval := 100 |} in
  let env := {| cuda_is_available := true; len_train_loader := 3 |} in
  In (SaveCheckpoint (checkpoint_name (backbone args) 300))
     (fst (train args env)) /\
  ~ In (SaveCheckpoint (checkpoint_name (backbone args) 250))
       (fst (train args env)).
Proof.
  intros args env.
  assert (Hb : In (backbone args) supported_backbones) by (simpl; auto).
  assert (Ht : total_steps args env <> 0%Z) by (unfold total_steps; simpl; lia).
  assert (H300 : (1 <= 300 <= epochs args)%Z) by (simpl; lia).
  assert (H250 : (1 <= 250 <= epochs args)%Z) by (simpl; lia).
  destruct (train_checkpoint_rule args env 300 eq_refl Hb Ht H300) as [Y _].
  destruct (train_checkpoint_rule args env 250 eq_refl Hb Ht H250) as [N _].
  split.
  - refine (proj2 Y _). split; [simpl; lia | exists 3%Z; reflexivity].
  - intros H. destruct (proj1 N H) as [_ [z Hz]]. simpl in Hz. lia.
Defined.

(** X15: A run that starts, with a schedule of at least one step and a log
    interval other than zero, ends without an exception after exactly
    epochs x len(train_loader) optimizer steps. *)
Theorem train_completes (args : Args) (env : Env) :
  cuda_is_available env = true ->
  In (backbone args) supported_backbones ->
  total_steps args env <> 0%Z -> log_interval args <> 0%Z ->
  snd (train args env) = Ok tt /\
  steps_run (fst (train args env))
  = (Z.to_nat (epochs args) * len_train_loader env)%nat /\
  filter is_step (fst (train args env))
  = flat_map (fun e => repeat (OptimizerStep e) (len_train_loader env))
             (range 1 (epochs args + 1)).
Proof.
  intros Hc Hb Ht HL.
  destruct (train_steps_run args env Hc Hb Ht HL) as [R S].
  split; [exact R|]. split; [exact S|].
  rewrite train_defined by assumption. cbn [fst].
  induction (range 1 (epochs args + 1)) as [|e todo IH]; [reflexivity|].
  cbn [flat_map]. rewrite filter_app, IH. f_equal.
  unfold epoch_trace. rewrite filter_app, end_of_epoch_trace.
  assert (F : forall n, filter is_step (repeat (OptimizerStep e) n)
                        = repeat (OptimizerStep e) n)
    by (induction n as [|n IHn]; simpl; [reflexivity | now rewrite IHn]).
  rewrite F.
  destruct (match should_save e (log_interval args) with
            | Ok b => b | Err _ => false end); simpl; apply app_nil_r.
Qed.

Lemma train_completes_witness :
  let args := {| backbone := "resnet18"; learning_rate := 0.6;
                 temperature := 0.5; epochs := 4; log_interval := 2 |} in
  let env := {| cuda_is_available := true; len_train_loader := 3 |} in
  snd (train args env) = Ok tt /\
  steps_run (fst (train args env)) = 12%nat.
Proof.
  intros args env.
  destruct (train_completes args env) as (R & S & _).
  - reflexivity.
  - simpl; auto.
  - unfold total_steps; simpl; lia.
  - simpl; lia.
  - split; [exact R | exact S].
Defined.

(** X16: The checkpoints of such a run: a file is written exactly for the
    epochs e in 1..epochs with e >= log_interval that log_interval
    divides, under the name of that epoch, and no file is written
    twice. *)
Theorem train_checkpoints (args : Args) (env : Env) :
  cuda_is_available env = true ->
  In (backbone args) supported_backbones ->
  total_steps args env <> 0%Z -> log_interval args <> 0%Z ->
  (forall file,
      In file (saved_files (fst (train args env)))
      <-> exists e, (1 <= e <= epochs args)%Z /\
                    (log_interval args <= e)%Z /\ (log_interval args | e)%Z /\
                    file = checkpoint_name (backbone args) e) /\
  NoDup (saved_files (fst (train args env))).
Proof.
  intros Hc Hb Ht HL. rewrite train_saved_files by assumption. split.
  - intros file. rewrite in_map_iff. split.
    + intros (e & <- & He). apply filter_In in He. destruct He as [Hr Hs].
      apply range_In in Hr. apply (saves_true _ _ HL) in Hs.
      exists e. repeat split; try tauto; lia.
    + intros (e & Hr & HLe & Hd & ->). exists e. split; [reflexivity|].
      apply filter_In. split; [apply range_In; lia|].
      apply (saves_true _ _ HL). auto.
  - apply NoDup_map_NoDup_ForallPairs.
    + intros e e' _ _. apply checkpoint_name_epoch_inj.
    + apply NoDup_filter, range_NoDup.
Qed.

Lemma train_checkpoints_witness :
  let args := {| backbone := "resnet18"; learning_rate := 0.6;
                 temperature := 0.5; epochs := 4; log_interval := 2 |} in
  let env := {| cuda_is_available := true; len_train_loader := 3 |} in
  In "simclr_resnet18_epoch4.pt"%string (saved_files (fst (train args env))) /\
  NoDup (saved_files (fst (train args env))).
Proof.
  intros args env.
  destruct (train_checkpoints args env) as (M & D).
  - reflexivity.
  - simpl; auto.
  - unfold total_steps; simpl; lia.
  - simpl; lia.
  - split; [|exact D]. apply M. exists 4%Z.
    split; [simpl; lia|]. split; [simpl; lia|].
    split; [exists 2%Z; reflexivity | reflexivity].
Defined.

(** X17: A log interval of zero lets the first epoch run and then aborts the
    run with a division by zero, before any checkpoint is written. *)
Theorem train_log_interval_zero (args : Args) (env : Env) :
  cuda_is_available env = true ->
  In (backbone args) supported_backbones ->
  (1 <= epochs args)%Z -> (1 <= len_train_loader env)%nat ->
  log_interval args = 0%Z ->
  train args env
  = (repeat (OptimizerStep 1) (len_train_loader env), Err ZeroDivisionError).
Proof.
  intros Hc Hb He Hn HL.
  assert (Ht : total_steps args env <> 0%Z) by (unfold total_steps; nia).
  unfold train. rewrite Hc. cbn [negb].
  apply string_in_spec in Hb. rewrite Hb. cbn [negb].
  unfold LambdaLR. destruct (lr_lambda_defined args env 0 Ht) as [f ->].
  cbn [bind]. unfold range.
  replace (Z.to_nat (epochs args + 1 - 1)) with (S (Z.to_nat (epochs args - 1)))
    by lia.
  cbn [seq map train_epochs]. replace (1 + Z.of_nat 0)%Z with 1%Z by lia.
  destruct (train_batches_defined args env 1 (len_train_loader env) Ht
              {| last_epoch := 0; factor := f |}) as [s1 ->].
  unfold end_of_epoch, should_save. rewrite HL. cbn.
  now rewrite app_nil_r.
Qed.

Lemma train_log_interval_zero_witness :
  let args := {| backbone := "resnet18"; learning_rate := 0.6;
                 temperature := 0.5; epochs := 4; log_interval := 0 |} in
  let env := {| cuda_is_available := true; len_train_loader := 3 |} in
  train args env
  = ([OptimizerStep 1; OptimizerStep 1; OptimizerStep 1],
     Err ZeroDivisionError).
Proof.
  intros args env. apply (train_log_interval_zero args env).
  - reflexivity.
  - simpl; auto.
  - simpl; lia.
  - simpl; lia.
  - reflexivity.
Defined.

(** X18: A negative number of epochs, unlike zero, raises nothing: the run
    ends at once, without a step and without a checkpoint. *)
Theorem train_negative_epochs (args : Args) (env : Env) :
  cuda_is_available env = true ->
  In (backbone args) supported_backbones ->
  (epochs args < 0)%Z -> (1 <= len_train_loader env)%nat ->
  train args env = ([], Ok tt).
Proof.
  intros Hc Hb He Hn.
  assert (Ht : total_steps args env <> 0%Z) by (unfold total_steps; nia).
  unfold train. rewrite Hc. cbn [negb].
  apply string_in_spec in Hb. rewrite Hb. cbn [negb].
  unfold LambdaLR. destruct (lr_lambda_defined args env 0 Ht) as [f ->].
  cbn [bind]. unfold range.
  replace (Z.to_nat (epochs args + 1 - 1)) with 0%nat by lia.
  reflexivity.
Qed.

Lemma train_negative_epochs_witness :
  let args := {| backbone := "resnet18"; learning_rate := 0.6;
                 temperature := 0.5; epochs := -3; log_interval := 1 |} in
  let env := {| cuda_is_available := true; len_train_loader := 3 |} in
  train args env = ([], Ok tt).
Proof.
  intros args env. apply (train_negative_epochs args env).
  - reflexivity.
  - simpl; auto.
  - simpl; lia.
  - simpl; lia.
Defined.

(** *** The scheduler *)

Section SchedulerExtras.

Local Open Scope R_scope.




End SchedulerExtras.

